(** * The KV-cache block and its builder (modules/llm-cache/ds/kv_cache_block.cc)

    A shallow embedding of [KVCacheBlock] and [KVCacheBlockBuilder]:
    the slot bitmap and its allocator, the per-layer tensor regions kept in
    the object store's shared memory, the slot operations [Query], [Update]
    and [Split], and the seal / reconstruct protocol.

    Conventions.
    - A C++ [int] is a [Z]. Signed overflow is undefined in the source; the
      one product that can realistically leave the [int] range, the byte
      offset [index * tensorNBytes], is checked ([int_mul]) and the other
      quantities are kept in range by [builder_wf].
    - A [uint64_t] bitmap word is a [Z] in [[0, 2^64)]; complement and shift
      are truncated to 64 bits.
    - [/] and [%] on [int] truncate toward zero: [Z.quot] and [Z.rem].
    - A computation that the C++ standard leaves undefined (a copy outside a
      buffer, an index outside a vector or array, a shift by a negative
      count) is [None]; a call that returns is [Some] of what it returns
      and of the state it leaves behind.
    - Logging statements are not modelled, except for the dereferences in
      their arguments ([GetKeyTensor(0)] in the constructor from a block and
      in [Make]), which are undefined on a block without a layer. *)

From Stdlib Require Import ZArith Lia Bool Ascii.
From stdpp Require Import base numbers option list strings pretty gmap.

Local Open Scope Z_scope.

(** ** Machine integers *)

Definition INT_MAX : Z := 2147483647.
Definition INT_MIN : Z := -2147483648.

Definition in_int (x : Z) : bool := (INT_MIN <=? x) && (x <=? INT_MAX).

(** [a * b] on [int]: undefined when the product overflows. *)
Definition int_mul (a b : Z) : option Z :=
  if in_int (a * b) then Some (a * b) else None.

(** Conversion of an [int] to [int16_t] (the return type of [Split]). *)
Definition to_int16 (x : Z) : Z := (x + 32768) mod 65536 - 32768.

Definition UINT64_MAX : Z := Z.ones 64.

Definition is_uint64 (w : Z) : Prop := 0 <= w <= UINT64_MAX.

(** [~x] on a [uint64_t]. *)
Definition not64 (x : Z) : Z := Z.land (Z.lnot x) UINT64_MAX.

(** [((uint64_t) 1) << bit]. *)
Definition shl64 (bit : Z) : Z := Z.land (Z.shiftl 1 bit) UINT64_MAX.

(** Number of trailing zero bits of a positive number. *)
Fixpoint ctz (p : positive) : Z :=
  match p with
  | xO q => 1 + ctz q
  | _ => 0
  end.

(** [ffsll]: one plus the index of the least significant set bit, [0] for
    a zero argument. The argument is the bit pattern of the word; negation
    in two's complement keeps the trailing zeros. *)
Definition ffsll (x : Z) : Z :=
  match x with
  | Z0 => 0
  | Zpos p => 1 + ctz p
  | Zneg p => 1 + ctz p
  end.

(** Modelled from the spec: the bit macros of kv_cache_block.h, which is not
    among the sources. "Acquire(slotIndex): clears the bit - the slot
    becomes occupied." *)
Definition ACQUIRE_BIT_RESOURCE (value bit : Z) : Z :=
  Z.land value (not64 (shl64 bit)).

(** Modelled from the spec: "Release(slotIndex): sets the bit - the slot
    becomes free." *)
Definition FREE_BIT_RESOURCE (value bit : Z) : Z :=
  Z.lor value (shl64 bit).

(** ** Bitmaps: arrays of 64-bit words *)

(** [bitmap[i]]; the constructors allocate [bitmapSize] words, and every
    read below is at an index the loop keeps under [bitmapSize]. *)
Definition word_at (bm : list Z) (i : Z) : Z :=
  if i <? 0 then 0 else default 0 (bm !! Z.to_nat i).

(** The free bit of slot [i]: bit [i mod 64] of word [i / 64]. *)
Definition slot_bit (bm : list Z) (i : Z) : bool :=
  (0 <=? i) && Z.testbit (word_at bm (i / 64)) (i mod 64).

(** [MACRO(bitmap[index / 64], index % 64)]: undefined for a negative index
    (word index or shift count negative) and for a word outside the array. *)
Definition bitmap_apply (f : Z -> Z -> Z) (bm : list Z) (index : Z)
  : option (list Z) :=
  if (0 <=? index) && (Z.quot index 64 <? Z.of_nat (length bm))
  then Some (<[Z.to_nat (Z.quot index 64) :=
                 f (word_at bm (Z.quot index 64)) (Z.rem index 64)]> bm)
  else None.

(** [memset(bitmap, UINT8_MAX, bitmapSize * sizeof(uint64_t))]. *)
Definition bitmap_all_free (bitmapSize : Z) : list Z :=
  replicate (Z.to_nat bitmapSize) UINT64_MAX.

(** The scan of [FindEmptySlot], [n] words left, at word [i]. *)
Fixpoint FindEmptySlot_loop (bm : list Z) (n : nat) (i : Z) : Z :=
  match n with
  | O => -1
  | S n' =>
      if negb (word_at bm i =? 0)
      then (ffsll (word_at bm i) - 1) + i * 64
      else FindEmptySlot_loop bm n' (i + 1)
  end.

(** The scan of [IsFull], [n] words left, at word [i], [left] slots left. *)
Fixpoint IsFull_loop (bm : list Z) (n : nat) (i : Z) (left : Z) : bool :=
  match n with
  | O => true
  | S n' =>
      if negb (word_at bm i =? 0) && (ffsll (word_at bm i) - 1 <? left)
      then false
      else IsFull_loop bm n' (i + 1) (left - 64)
  end.

(** ** Status values *)

(** [Status::OK()], the status built by [RETURN_ON_ASSERT] (with the
    message the source passes; the text the macro adds is not modelled) and
    the status of a failed store request. *)
Inductive Status :=
  | OK
  | AssertionFailed (message : string)
  | ObjectNotExists.

Definition ok (s : Status) : bool :=
  match s with OK => true | _ => false end.

(** Conversions between [int] and [size_t]. *)
Definition to_size_t (x : Z) : Z := x mod 2 ^ 64.
Definition to_int (x : Z) : Z := (x + 2 ^ 31) mod 2 ^ 32 - 2 ^ 31.

(** ** The object store *)

Abbreviation ObjectID := N (only parsing).
Abbreviation byte := Byte.byte (only parsing).

(** Modelled from the spec: object metadata of the store (client/client.h
    and its metadata classes are not among the sources). "persist a set of
    scalar key/value pairs plus child-object references under a type tag". *)
Record ObjectMeta := {
  type_name : string;
  key_values : gmap string Z;
  members : gmap string ObjectID
}.

Definition empty_meta : ObjectMeta :=
  {| type_name := ""; key_values := ∅; members := ∅ |}.

Definition AddKeyValue (key : string) (value : Z) (meta : ObjectMeta)
  : ObjectMeta :=
  {| type_name := type_name meta;
     key_values := <[key := value]> (key_values meta);
     members := members meta |}.

Definition AddMember (name : string) (member : ObjectID) (meta : ObjectMeta)
  : ObjectMeta :=
  {| type_name := type_name meta;
     key_values := key_values meta;
     members := <[name := member]> (members meta) |}.

Definition SetTypeName (name : string) (meta : ObjectMeta) : ObjectMeta :=
  {| type_name := name;
     key_values := key_values meta;
     members := members meta |}.



(** Modelled from the spec: the object-store client. [memory] holds the
    byte regions of the tensor-region builders and of the sealed tensors
    ("a contiguous byte buffer of blockSize x tensorNBytes bytes"),
    [objects] the committed metadata, [remote] the committed objects that
    live at another location, which a fetch has to migrate ("the fetch may
    transparently migrate the object from another location - the store, not
    this component, owns that policy"), [next_id] the next fresh identifier,
    and [uninit] what a newly reserved region contains ("allocate an
    uninitialized, independently addressable byte region"). *)
Record Client := {
  memory : gmap ObjectID (list byte);
  objects : gmap ObjectID ObjectMeta;
  remote : gset ObjectID;
  next_id : ObjectID;
  uninit : ObjectID -> nat -> byte
}.

Definition set_memory (c : Client) (m : gmap ObjectID (list byte)) : Client :=
  {| memory := m; objects := objects c; remote := remote c;
     next_id := next_id c; uninit := uninit c |}.

(** Modelled from the spec: "Create(shape) -> TensorRegionBuilder". The
    builder is named by the identifier of its region; [data()] is the
    start of that region. *)
Definition KVTensorBuilder_new (c : Client) (shape : Z * Z) : Client * ObjectID :=
  let id := next_id c in
  let n := Z.to_nat (shape.1 * shape.2) in
  ({| memory := <[id := uninit c id <$> seq 0 n]> (memory c);
      objects := objects c;
      remote := remote c;
      next_id := N.succ id;
      uninit := uninit c |}, id).

(** Modelled from the spec: "TensorRegionBuilder.Seal(store) ->
    TensorRegionHandle (immutable, identifier-addressable)"; "ownership of
    the resulting tensor objects then transfers to the store". Sealing
    copies nothing: the tensor object addresses the builder's region. *)
Definition KVTensorBuilder_Seal (c : Client) (tensorBuilder : ObjectID)
  : Client * ObjectID :=
  (c, tensorBuilder).

(** Modelled from the spec: "Create/Commit(metadata) -> identifier". The
    committed object lives where it was committed. *)
Definition CreateMetaData (c : Client) (meta : ObjectMeta) : Client * ObjectID :=
  let id := next_id c in
  ({| memory := memory c;
      objects := <[id := meta]> (objects c);
      remote := remote c ∖ {[id]};
      next_id := N.succ id;
      uninit := uninit c |}, id).


(** ** Byte regions and copies *)

(** The bytes [[off, off + n)] of a buffer; undefined outside it. *)
Definition region_read (buf : list byte) (off n : Z) : option (list byte) :=
  if (0 <=? off) && (0 <=? n) && (off + n <=? Z.of_nat (length buf))
  then Some (take (Z.to_nat n) (drop (Z.to_nat off) buf))
  else None.

(** The buffer with [src] stored from [off] on; undefined outside it. *)
Definition region_write (buf : list byte) (off : Z) (src : list byte)
  : option (list byte) :=
  if (0 <=? off) && (off + Z.of_nat (length src) <=? Z.of_nat (length buf))
  then Some (take (Z.to_nat off) buf ++ src
             ++ drop (Z.to_nat off + length src) buf)
  else None.

(** What a [void*] of an [LLMKV] can point at: nothing, a buffer of the
    caller, or a place in a tensor region. *)
Inductive dataptr :=
  | nullptr
  | caller_buffer (bytes : list byte)
  | tensor_at (region : ObjectID) (offset : Z).

Module LLMKV.
Record t := { data : dataptr; length : Z }.
End LLMKV.

Module OffsetData.
(** Modelled from the spec: the out-parameter of [Update], "reports the
    chosen slot index back to the caller" (its declaration is not among
    the sources). *)
Record t := { offset : Z }.
End OffsetData.

(** [n] bytes read through a pointer. *)
Definition load (m : gmap ObjectID (list byte)) (p : dataptr) (n : Z)
  : option (list byte) :=
  match p with
  | nullptr => None
  | caller_buffer bytes => region_read bytes 0 n
  | tensor_at region off => buf ← m !! region; region_read buf off n
  end.

(** [concurrent_memcpy(dst + off, src, n)] into the region [dst]. Source and
    destination must not overlap. *)
Definition concurrent_memcpy (m : gmap ObjectID (list byte))
    (dst : ObjectID) (off : Z) (src : dataptr) (n : Z)
  : option (gmap ObjectID (list byte)) :=
  bytes ← load m src n;
  buf ← m !! dst;
  buf' ← region_write buf off bytes;
  match src with
  | tensor_at region soff =>
      if bool_decide (region = dst) && (0 <? n)
         && (soff <? off + n) && (off <? soff + n)
      then None
      else Some (<[dst := buf']> m)
  | _ => Some (<[dst := buf']> m)
  end.

(** ** The block builder *)

(** The fields of [KVCacheBlockBuilder]. The bitmap array is owned by the
    builder; the tensor builders are named by their regions in the store's
    memory. [sealed] is the flag of the [ObjectBuilder] base class. *)
Record KVCacheBlockBuilder := {
  blockSize : Z;
  bitmapSize : Z;
  bitmap : list Z;
  tensorNBytes : Z;
  layer : Z;
  keyStateTensorBuilderList : list ObjectID;
  valueStateTensorBuilderList : list ObjectID;
  sealed : bool
}.

Definition set_bitmap (b : KVCacheBlockBuilder) (bm : list Z)
  : KVCacheBlockBuilder :=
  {| blockSize := blockSize b; bitmapSize := bitmapSize b; bitmap := bm;
     tensorNBytes := tensorNBytes b; layer := layer b;
     keyStateTensorBuilderList := keyStateTensorBuilderList b;
     valueStateTensorBuilderList := valueStateTensorBuilderList b;
     sealed := sealed b |}.

Definition set_sealed (b : KVCacheBlockBuilder) (flag : bool)
  : KVCacheBlockBuilder :=
  {| blockSize := blockSize b; bitmapSize := bitmapSize b; bitmap := bitmap b;
     tensorNBytes := tensorNBytes b; layer := layer b;
     keyStateTensorBuilderList := keyStateTensorBuilderList b;
     valueStateTensorBuilderList := valueStateTensorBuilderList b;
     sealed := flag |}.

(** The loop of both constructors that creates the tensor builders; [n]
    layers left. *)
Fixpoint make_tensor_builders (c : Client) (shape : Z * Z) (n : nat)
    (keys values : list ObjectID) : Client * list ObjectID * list ObjectID :=
  match n with
  | O => (c, keys, values)
  | S n' =>
      let '(c1, k) := KVTensorBuilder_new c shape in
      let '(c2, v) := KVTensorBuilder_new c1 shape in
      make_tensor_builders c2 shape n' (keys ++ [k]) (values ++ [v])
  end.

(** [KVCacheBlockBuilder(client, tensorNBytes, layer, blockSize)]. *)
Definition KVCacheBlockBuilder_new (c : Client) (tensorNBytes layer blockSize : Z)
  : Client * KVCacheBlockBuilder :=
  let bitmapSize := Z.quot (blockSize + 63) 64 in
  let '(c', keys, values) :=
    make_tensor_builders c (blockSize, tensorNBytes) (Z.to_nat layer) [] [] in
  (c', {| blockSize := blockSize;
          bitmapSize := bitmapSize;
          bitmap := bitmap_all_free bitmapSize;
          tensorNBytes := tensorNBytes;
          layer := layer;
          keyStateTensorBuilderList := keys;
          valueStateTensorBuilderList := values;
          sealed := false |}).

Definition FindEmptySlot (b : KVCacheBlockBuilder) : Z :=
  FindEmptySlot_loop (bitmap b) (Z.to_nat (bitmapSize b)) 0.

Definition IsFull (b : KVCacheBlockBuilder) : bool :=
  IsFull_loop (bitmap b) (Z.to_nat (bitmapSize b)) 0 (blockSize b).

Definition index_out_of_range (index : Z) : Status :=
  AssertionFailed ("Index out of range: " +:+ pretty index).

Definition kvState_size_mismatch : Status :=
  AssertionFailed "The size of kvState is not equal to layer".

(** The assertion of [Update] on the two lengths carries no message. *)
Definition length_mismatch : Status := AssertionFailed "".

(** The loop of [Query]; [n] layers left, at [currentLayer]. *)
Fixpoint Query_loop (b : KVCacheBlockBuilder) (index : Z) (n : nat)
    (currentLayer : Z) (kvState : list (LLMKV.t * LLMKV.t))
  : option (list (LLMKV.t * LLMKV.t)) :=
  match n with
  | O => Some kvState
  | S n' =>
      _ ← kvState !! Z.to_nat currentLayer;
      keyData ← keyStateTensorBuilderList b !! Z.to_nat currentLayer;
      valueData ← valueStateTensorBuilderList b !! Z.to_nat currentLayer;
      off ← int_mul index (tensorNBytes b);
      let keyState :=
        {| LLMKV.data := tensor_at keyData off;
           LLMKV.length := to_size_t (tensorNBytes b) |} in
      let valueState :=
        {| LLMKV.data := tensor_at valueData off;
           LLMKV.length := to_size_t (tensorNBytes b) |} in
      Query_loop b index n' (currentLayer + 1)
        (<[Z.to_nat currentLayer := (keyState, valueState)]> kvState)
  end.

Definition Query (b : KVCacheBlockBuilder) (index : Z)
    (kvState : list (LLMKV.t * LLMKV.t))
  : option (Status * list (LLMKV.t * LLMKV.t)) :=
  if negb ((0 <=? index) && (index <? blockSize b))
  then Some (index_out_of_range index, kvState)
  else if negb (to_int (Z.of_nat (length kvState)) =? layer b)
  then Some (kvState_size_mismatch, kvState)
  else
    kvState' ← Query_loop b index (Z.to_nat (layer b)) 0 kvState;
    Some (OK, kvState').

(** The loop of [Update]; [n] layers left, at [currentLayer]. It leaves
    early, with the copies of the earlier layers done, when a length is not
    [tensorNBytes]. *)
Fixpoint Update_loop (b : KVCacheBlockBuilder)
    (kvState : list (LLMKV.t * LLMKV.t)) (index : Z) (n : nat)
    (currentLayer : Z) (m : gmap ObjectID (list byte))
  : option (Status * gmap ObjectID (list byte)) :=
  match n with
  | O => Some (OK, m)
  | S n' =>
      '(keyState, valueState) ← kvState !! Z.to_nat currentLayer;
      if negb ((LLMKV.length keyState =? to_size_t (tensorNBytes b))
               && (LLMKV.length valueState =? to_size_t (tensorNBytes b)))
      then Some (length_mismatch, m)
      else
        keyData ← keyStateTensorBuilderList b !! Z.to_nat currentLayer;
        valueData ← valueStateTensorBuilderList b !! Z.to_nat currentLayer;
        off ← int_mul index (tensorNBytes b);
        m1 ← concurrent_memcpy m keyData off (LLMKV.data keyState)
               (tensorNBytes b);
        m2 ← concurrent_memcpy m1 valueData off (LLMKV.data valueState)
               (tensorNBytes b);
        Update_loop b kvState index n' (currentLayer + 1) m2
  end.

Definition Update (m : gmap ObjectID (list byte)) (b : KVCacheBlockBuilder)
    (kvState : list (LLMKV.t * LLMKV.t)) (data : OffsetData.t)
  : option (Status * gmap ObjectID (list byte) * KVCacheBlockBuilder
            * OffsetData.t) :=
  let index := FindEmptySlot b in
  if negb ((0 <=? index) && (index <? blockSize b))
  then Some (index_out_of_range index, m, b, data)
  else if negb (Z.of_nat (length kvState) =? to_size_t (layer b))
  then Some (kvState_size_mismatch, m, b, data)
  else
    '(status, m') ← Update_loop b kvState index (Z.to_nat (layer b)) 0 m;
    if ok status
    then
      bitmap' ← bitmap_apply ACQUIRE_BIT_RESOURCE (bitmap b) index;
      Some (OK, m', set_bitmap b bitmap', {| OffsetData.offset := index |})
    else Some (status, m', b, data).

(** The loop of [Split]; [n] layers left, at [currentLayer]. The offsets in
    both builders use [this->tensorNBytes]. *)
Fixpoint Split_loop (this child : KVCacheBlockBuilder) (index childIndex : Z)
    (n : nat) (currentLayer : Z) (m : gmap ObjectID (list byte))
  : option (gmap ObjectID (list byte)) :=
  match n with
  | O => Some m
  | S n' =>
      keyStateTensorBuilder ←
        keyStateTensorBuilderList this !! Z.to_nat currentLayer;
      valueStateTensorBuilder ←
        valueStateTensorBuilderList this !! Z.to_nat currentLayer;
      childKeyStateTensorBuilder ←
        keyStateTensorBuilderList child !! Z.to_nat currentLayer;
      childValueStateTensorBuilder ←
        valueStateTensorBuilderList child !! Z.to_nat currentLayer;
      off ← int_mul index (tensorNBytes this);
      childOff ← int_mul childIndex (tensorNBytes this);
      m1 ← concurrent_memcpy m childKeyStateTensorBuilder childOff
             (tensor_at keyStateTensorBuilder off) (tensorNBytes this);
      m2 ← concurrent_memcpy m1 childValueStateTensorBuilder childOff
             (tensor_at valueStateTensorBuilder off) (tensorNBytes this);
      Split_loop this child index childIndex n' (currentLayer + 1) m2
  end.

(** [this->Split(child, index)] for a [child] that is another object than
    [this]. The result is the returned [int16_t], the memory and the two
    builders. *)
Definition Split (m : gmap ObjectID (list byte))
    (this child : KVCacheBlockBuilder) (index : Z)
  : option (Z * gmap ObjectID (list byte) * KVCacheBlockBuilder
            * KVCacheBlockBuilder) :=
  let childIndex := FindEmptySlot child in
  m' ← Split_loop this child index childIndex (Z.to_nat (layer this)) 0 m;
  childBitmap ← bitmap_apply ACQUIRE_BIT_RESOURCE (bitmap child) childIndex;
  thisBitmap ← bitmap_apply FREE_BIT_RESOURCE (bitmap this) index;
  Some (to_int16 childIndex, m', set_bitmap this thisBitmap,
        set_bitmap child childBitmap).

(** ** The sealed block *)

(** [type_name<KVCacheBlock>()]. *)
Definition KVCacheBlock_type_name : string := "vineyard::KVCacheBlock".

Module KVCacheBlock.
(** The fields of [KVCacheBlock]; [meta_] and [id_] are those of the
    [Object] base class. A sealed tensor is named by its region. *)
Record t := {
  meta_ : ObjectMeta;
  id_ : ObjectID;
  layer : Z;
  keyStateTensorList : list ObjectID;
  valueStateTensorList : list ObjectID;
  bitmapSize : Z;
  bitmap : list Z;
  tensorNBytes : Z;
  blockSize : Z
}.
End KVCacheBlock.










Module TreeData.
(** The two fields of [TreeData] that [Make] reads. *)
Record t := { isPtr : bool; builderObjectID : ObjectID }.
End TreeData.


(** [KVCacheBlockBuilder::Build]. *)
Definition Build (c : Client) : Status := OK.

(** The first loop of [_Seal]: every layer's tensors are sealed and added
    as members; [n] layers left. *)
Fixpoint Seal_tensors (b : KVCacheBlockBuilder) (n : nat) (currentLayer : Z)
    (c : Client) (meta : ObjectMeta) : option (Client * ObjectMeta) :=
  match n with
  | O => Some (c, meta)
  | S n' =>
      kb ← keyStateTensorBuilderList b !! Z.to_nat currentLayer;
      let '(c1, k) := KVTensorBuilder_Seal c kb in
      let meta1 :=
        AddMember ("keyStateTensorBuilder_" +:+ pretty currentLayer) k meta in
      vb ← valueStateTensorBuilderList b !! Z.to_nat currentLayer;
      let '(c2, v) := KVTensorBuilder_Seal c1 vb in
      let meta2 :=
        AddMember ("valueStateTensorBuilder_" +:+ pretty currentLayer) v meta1 in
      Seal_tensors b n' (currentLayer + 1) c2 meta2
  end.

(** The second loop of [_Seal]: the bitmap words; [n] words left. *)
Fixpoint Seal_bitmap (b : KVCacheBlockBuilder) (n : nat) (i : Z)
    (meta : ObjectMeta) : option ObjectMeta :=
  match n with
  | O => Some meta
  | S n' =>
      w ← bitmap b !! Z.to_nat i;
      Seal_bitmap b n' (i + 1) (AddKeyValue ("bitmap_" +:+ pretty i) w meta)
  end.

(** [KVCacheBlockBuilder::_Seal(client)]. The returned object carries the
    metadata and the new identifier; [_Seal] assigns none of its other
    fields. *)
Definition _Seal (c : Client) (b : KVCacheBlockBuilder)
  : option (Client * KVCacheBlockBuilder * (ObjectID * ObjectMeta)) :=
  if negb (ok (Build c)) then None
  else
    '(c1, meta1) ← Seal_tensors b (Z.to_nat (layer b)) 0 c empty_meta;
    let meta2 := AddKeyValue "bitmap_size" (bitmapSize b) meta1 in
    meta3 ← Seal_bitmap b (Z.to_nat (bitmapSize b)) 0 meta2;
    let meta4 := AddKeyValue "block_size" (blockSize b) meta3 in
    let meta5 := AddKeyValue "tensorNBytes" (tensorNBytes b) meta4 in
    let meta6 := AddKeyValue "layer" (layer b) meta5 in
    let meta7 := SetTypeName KVCacheBlock_type_name meta6 in
    let '(c2, id) := CreateMetaData c1 meta7 in
    Some (c2, set_sealed b true, (id, meta7)).


(** ** The bitmap as a string *)

(** The inner loop of [GetBitmapStr]: the bits [n-1] down to [0] of a word,
    appended to [result]. *)
Fixpoint GetBitmapStr_bits (word : Z) (n : nat) (result : string) : string :=
  match n with
  | O => result
  | S j =>
      GetBitmapStr_bits word j
        (result +:+ String (if negb (Z.land (Z.shiftr word (Z.of_nat j)) 1 =? 0)
                            then "1"%char else "0"%char) "")
  end.

(** The outer loop of [GetBitmapStr]; [n] words left, at word [i]. *)
Fixpoint GetBitmapStr_loop (bm : list Z) (n : nat) (i : Z) (result : string)
  : string :=
  match n with
  | O => result
  | S n' =>
      GetBitmapStr_loop bm n' (i + 1)
        (GetBitmapStr_bits (word_at bm i) 64 result)
  end.

(** [KVCacheBlockBuilder::GetBitmapStr]. *)
Definition GetBitmapStr (b : KVCacheBlockBuilder) : string :=
  GetBitmapStr_loop (bitmap b) (Z.to_nat (bitmapSize b)) 0 "".

(** [KVCacheBlock::GetBitmapStr]. *)
Definition KVCacheBlock_GetBitmapStr (block : KVCacheBlock.t) : string :=
  GetBitmapStr_loop (KVCacheBlock.bitmap block)
    (Z.to_nat (KVCacheBlock.bitmapSize block)) 0 "".

(** The character [GetBitmapStr] writes for a bit. *)
Definition bit_char (bit : bool) : ascii :=
  if bit then "1"%char else "0"%char.

(** ** Well-formed builders, observations and drivers *)

(** The regions a builder writes to. *)
Definition regions (b : KVCacheBlockBuilder) : list ObjectID :=
  keyStateTensorBuilderList b ++ valueStateTensorBuilderList b.

(** What both constructors establish and [Update] and [Split] keep: sizes in
    the [int] range, a bitmap of [bitmapSize] 64-bit words, [layer] key and
    value builders, each with its own region of [blockSize * tensorNBytes]
    bytes. *)
Record builder_wf (m : gmap ObjectID (list byte)) (b : KVCacheBlockBuilder)
  : Prop := {
  wf_blockSize : 0 <= blockSize b <= INT_MAX - 63;
  wf_tensorNBytes : 0 <= tensorNBytes b <= INT_MAX;
  wf_layer : 0 <= layer b <= INT_MAX;
  wf_product : blockSize b * tensorNBytes b <= INT_MAX;
  wf_bitmapSize : bitmapSize b = Z.quot (blockSize b + 63) 64;
  wf_bitmap_length : Z.of_nat (length (bitmap b)) = bitmapSize b;
  wf_bitmap_words : Forall is_uint64 (bitmap b);
  wf_keys : Z.of_nat (length (keyStateTensorBuilderList b)) = layer b;
  wf_values : Z.of_nat (length (valueStateTensorBuilderList b)) = layer b;
  wf_regions :
    Forall (fun r => length <$> m !! r
                     = Some (Z.to_nat (blockSize b * tensorNBytes b)))
           (regions b);
  wf_distinct : NoDup (regions b)
}.

(** The bytes of slot [index] in a region. *)
Definition slot_bytes (m : gmap ObjectID (list byte)) (tensorNBytes : Z)
    (region : ObjectID) (index : Z) : option (list byte) :=
  load m (tensor_at region (index * tensorNBytes)) tensorNBytes.

(** The bytes behind a handle that [Query] filled in. *)
Definition deref (m : gmap ObjectID (list byte)) (kv : LLMKV.t)
  : option (list byte) :=
  load m (LLMKV.data kv) (LLMKV.length kv).

(** A byte span of the caller as an [LLMKV]. *)
Definition span (bytes : list byte) : LLMKV.t :=
  {| LLMKV.data := caller_buffer bytes;
     LLMKV.length := Z.of_nat (length bytes) |}.

Definition spans (contents : list (list byte * list byte))
  : list (LLMKV.t * LLMKV.t) :=
  (fun kv => (span kv.1, span kv.2)) <$> contents.

(** One key span and one value span of [tensorNBytes] bytes per layer. *)
Definition full_size (b : KVCacheBlockBuilder)
    (contents : list (list byte * list byte)) : Prop :=
  Z.of_nat (length contents) = layer b
  /\ Forall (fun kv => Z.of_nat (length kv.1) = tensorNBytes b
                       /\ Z.of_nat (length kv.2) = tensorNBytes b) contents.

(** An [LLMKV] that holds nothing yet, and a caller's buffer for [Query]. *)
Definition empty_LLMKV : LLMKV.t :=
  {| LLMKV.data := nullptr; LLMKV.length := 0 |}.

Definition query_buffer (n : Z) : list (LLMKV.t * LLMKV.t) :=
  replicate (Z.to_nat n) (empty_LLMKV, empty_LLMKV).

(** The number of occupied slots: clear bits among the first [blockSize]. *)
Definition occupied (b : KVCacheBlockBuilder) : Z :=
  Z.of_nat (length (filter (fun i => slot_bit (bitmap b) i = false)
                           (seqZ 0 (blockSize b)))).

(** A sequence of [Update] calls; the statuses and reported offsets are
    collected in call order. *)
Fixpoint Update_all (m : gmap ObjectID (list byte)) (b : KVCacheBlockBuilder)
    (inputs : list (list (LLMKV.t * LLMKV.t))) (data : OffsetData.t)
  : option (list (Status * Z) * gmap ObjectID (list byte)
            * KVCacheBlockBuilder) :=
  match inputs with
  | [] => Some ([], m, b)
  | kvState :: rest =>
      '(status, m1, b1, data1) ← Update m b kvState data;
      '(results, m2, b2) ← Update_all m1 b1 rest data1;
      Some ((status, OffsetData.offset data1) :: results, m2, b2)
  end.

(** [m'] differs from [m] at most in the bytes [[lo, hi)] of the regions
    [rs]: no region appears, disappears or changes its size. *)
Definition changed_within (rs : list ObjectID) (lo hi : Z)
    (m m' : gmap ObjectID (list byte)) : Prop :=
  forall r,
    (r ∉ rs -> m' !! r = m !! r)
    /\ (m !! r = None -> m' !! r = None)
    /\ (forall buf, m !! r = Some buf ->
          exists buf', m' !! r = Some buf'
                       /\ length buf' = length buf
                       /\ forall i : nat, ~ (lo <= Z.of_nat i < hi) ->
                                          buf' !! i = buf !! i).

(** The regions of the layers from [currentLayer] on. *)
Definition layer_regions (b : KVCacheBlockBuilder) (currentLayer : Z)
  : list ObjectID :=
  drop (Z.to_nat currentLayer) (keyStateTensorBuilderList b)
  ++ drop (Z.to_nat currentLayer) (valueStateTensorBuilderList b).

(** The slots below [k] are occupied and every other bit of the bitmap,
    padding included, is set: the state after [k] updates of a new builder. *)
Definition filled_to (b : KVCacheBlockBuilder) (k : Z) : Prop :=
  forall j, 0 <= j < 64 * bitmapSize b ->
            slot_bit (bitmap b) j = bool_decide (k <= j).

(** The handle to slot [index] of a region: [tensorNBytes] bytes at byte
    offset [index * tensorNBytes]. *)
Definition slot_handle (b : KVCacheBlockBuilder) (index : Z)
    (region : ObjectID) : LLMKV.t :=
  {| LLMKV.data := tensor_at region (index * tensorNBytes b);
     LLMKV.length := tensorNBytes b |}.

(** The handles to slot [index] for every layer, key and value. *)
Definition slot_handles (b : KVCacheBlockBuilder) (index : Z)
  : list (LLMKV.t * LLMKV.t) :=
  zip_with (fun kr vr => (slot_handle b index kr, slot_handle b index vr))
    (keyStateTensorBuilderList b) (valueStateTensorBuilderList b).

(** ** Example states *)

(** An empty store whose fresh regions hold zero bytes. *)
Definition example_client : Client :=
  {| memory := ∅; objects := ∅; remote := ∅; next_id := 0%N;
     uninit := fun _ _ => Byte.x00 |}.

(** One layer, two bytes per tensor: a key span of [x]s, a value span of
    [y]s. *)
Definition example_contents (x y : byte) : list (list byte * list byte) :=
  [([x; x], [y; y])].

Definition example_inputs : list (list (list byte * list byte)) :=
  [example_contents Byte.x01 Byte.x02;
   example_contents Byte.x03 Byte.x04;
   example_contents Byte.x05 Byte.x06].

(** A new builder of three slots after three updates. *)
Definition example_full
  : option (gmap ObjectID (list byte) * KVCacheBlockBuilder) :=
  let '(c, b) := KVCacheBlockBuilder_new example_client 2 1 3 in
  '(_, m, b') ← Update_all (memory c) b (spans <$> example_inputs)
                  {| OffsetData.offset := 0 |};
  Some (m, b').

(** The state [example_full] computes, written out. *)
Definition example_memory : gmap ObjectID (list byte) :=
  <[1%N := [Byte.x02; Byte.x02; Byte.x04; Byte.x04; Byte.x06; Byte.x06]]>
    (<[0%N := [Byte.x01; Byte.x01; Byte.x03; Byte.x03; Byte.x05; Byte.x05]]>
       ∅).

Definition example_builder : KVCacheBlockBuilder :=
  {| blockSize := 3; bitmapSize := 1; bitmap := [18446744073709551608];
     tensorNBytes := 2; layer := 1;
     keyStateTensorBuilderList := [0%N];
     valueStateTensorBuilderList := [1%N];
     sealed := false |}.

(** Two layers; the key span of the second layer is one byte short. *)
Definition example_short_input : list (LLMKV.t * LLMKV.t) :=
  [(span [Byte.x01; Byte.x01], span [Byte.x02; Byte.x02]);
   (span [Byte.x03], span [Byte.x04; Byte.x04])].

(** A store that holds [example_memory], and a new builder of the same
    shape as [example_builder] made in it: the child of a split. *)
Definition example_store : Client :=
  {| memory := example_memory; objects := ∅; remote := ∅; next_id := 2%N;
     uninit := fun _ _ => Byte.x00 |}.

Definition example_child : Client * KVCacheBlockBuilder :=
  KVCacheBlockBuilder_new example_store 2 1 3.










(** * Properties *)

(** ** Bits *)

Lemma ctz_nonneg p : 0 <= ctz p.
Proof. induction p; simpl; lia. Qed.

Lemma ctz_testbit p : Z.testbit (Zpos p) (ctz p) = true.
Proof.
  induction p as [p IH|p IH|]; simpl ctz; try reflexivity.
  pose proof (ctz_nonneg p).
  replace (1 + ctz p) with (Z.succ (ctz p)) by lia.
  change (Zpos p~0) with (2 * Zpos p).
  rewrite Z.double_bits_succ. exact IH.
Qed.

Lemma ctz_below p j : 0 <= j < ctz p -> Z.testbit (Zpos p) j = false.
Proof.
  revert j. induction p as [p IH|p IH|]; simpl ctz; intros j Hj; try lia.
  change (Zpos p~0) with (2 * Zpos p).
  destruct (decide (j = 0)) as [->|Hne].
  - apply Z.testbit_even_0.
  - replace j with (Z.succ (j - 1)) by lia.
    rewrite Z.double_bits_succ. apply IH. lia.
Qed.

Lemma ffsll_spec w :
  0 < w ->
  0 <= ffsll w - 1
  /\ Z.testbit w (ffsll w - 1) = true
  /\ forall j, 0 <= j < ffsll w - 1 -> Z.testbit w j = false.
Proof.
  destruct w as [|p|p]; try lia. intros _. simpl ffsll.
  replace (1 + ctz p - 1) with (ctz p) by lia.
  split; [apply ctz_nonneg|]. split; [apply ctz_testbit|apply ctz_below].
Qed.

Lemma uint64_testbit_high w j : is_uint64 w -> 64 <= j -> Z.testbit w j = false.
Proof.
  intros [Hlo Hhi] Hj. unfold UINT64_MAX in Hhi. rewrite Z.ones_equiv in Hhi.
  destruct (decide (w = 0)) as [->|Hw]; [apply Z.bits_0|].
  apply Z.bits_above_log2; [lia|].
  assert (Z.log2 w < 64); [|lia].
  apply Z.log2_lt_pow2; lia.
Qed.

Lemma ffsll_lt_64 w : is_uint64 w -> 0 < w -> ffsll w - 1 < 64.
Proof.
  intros Hw Hpos. destruct (ffsll_spec w Hpos) as (_ & Hbit & _).
  destruct (Z_lt_le_dec (ffsll w - 1) 64) as [|Hge]; [done|].
  rewrite (uint64_testbit_high w _ Hw Hge) in Hbit. discriminate.
Qed.

Lemma testbit_UINT64_MAX j : Z.testbit UINT64_MAX j = (0 <=? j) && (j <? 64).
Proof.
  unfold UINT64_MAX. destruct (Z_lt_le_dec j 0) as [Hneg|Hpos].
  - rewrite Z.testbit_neg_r by done. symmetry. apply andb_false_iff. left.
    apply Z.leb_gt. done.
  - rewrite Z.testbit_ones by lia. done.
Qed.

Lemma is_uint64_bits w :
  0 <= w -> (forall j, 64 <= j -> Z.testbit w j = false) -> is_uint64 w.
Proof.
  intros Hw Hbits. split; [done|].
  destruct (decide (w = 0)) as [->|Hne]; [done|].
  unfold UINT64_MAX. rewrite Z.ones_equiv.
  assert (Z.log2 w < 64).
  { destruct (Z_lt_le_dec (Z.log2 w) 64) as [|Hge]; [done|].
    assert (Z.testbit w (Z.log2 w) = true) as Hb by (apply Z.bit_log2; lia).
    rewrite Hbits in Hb by lia. discriminate. }
  assert (w < 2 ^ 64); [|lia].
  apply Z.log2_lt_pow2; lia.
Qed.

(** ** The bitmap scans *)

Lemma word_at_uint64 bm i : Forall is_uint64 bm -> is_uint64 (word_at bm i).
Proof.
  intros Hbm. unfold word_at. destruct (i <? 0); [by compute|].
  destruct (bm !! Z.to_nat i) as [w|] eqn:Hw; simpl; [|by compute].
  eapply Forall_lookup_1; eauto.
Qed.

Lemma word_at_outside bm i : Z.of_nat (length bm) <= i -> word_at bm i = 0.
Proof.
  intros Hi. unfold word_at. destruct (i <? 0); [done|].
  rewrite lookup_ge_None_2; [done|lia].
Qed.

Lemma slot_bit_word bm i j :
  0 <= i -> 0 <= j < 64 ->
  slot_bit bm (j + i * 64) = Z.testbit (word_at bm i) j.
Proof.
  intros Hi Hj. unfold slot_bit.
  rewrite Z.div_add, Z.mod_add, Z.div_small, Z.mod_small by lia.
  replace (0 <=? j + i * 64) with true by (symmetry; apply Z.leb_le; lia).
  done.
Qed.

Lemma slot_bit_split bm k :
  0 <= k -> slot_bit bm k = Z.testbit (word_at bm (k / 64)) (k mod 64).
Proof.
  intros Hk. unfold slot_bit.
  replace (0 <=? k) with true by (symmetry; apply Z.leb_le; lia). done.
Qed.

Lemma slot_bit_negative bm k : k < 0 -> slot_bit bm k = false.
Proof.
  intros Hk. unfold slot_bit.
  replace (0 <=? k) with false by (symmetry; apply Z.leb_gt; lia). done.
Qed.

Lemma slot_bit_outside bm k :
  64 * Z.of_nat (length bm) <= k -> slot_bit bm k = false.
Proof.
  intros Hk. rewrite slot_bit_split by lia.
  rewrite word_at_outside; [apply Z.bits_0|].
  apply Z.div_le_lower_bound; lia.
Qed.

Lemma slot_bit_zero_word bm k :
  0 <= k -> word_at bm (k / 64) = 0 -> slot_bit bm k = false.
Proof. intros Hk Hw. rewrite slot_bit_split, Hw by done. apply Z.bits_0. Qed.

(** The scan returns [-1] over zero words, and otherwise the least set bit
    of the words it went through. *)
Lemma FindEmptySlot_loop_spec bm n i :
  Forall is_uint64 bm -> 0 <= i ->
  (FindEmptySlot_loop bm n i = -1
   /\ forall j, i <= j < i + Z.of_nat n -> word_at bm j = 0)
  \/ (i * 64 <= FindEmptySlot_loop bm n i < (i + Z.of_nat n) * 64
      /\ slot_bit bm (FindEmptySlot_loop bm n i) = true
      /\ forall k, i * 64 <= k < FindEmptySlot_loop bm n i ->
                   slot_bit bm k = false).
Proof.
  intros Hbm. revert i. induction n as [|n IH]; intros i Hi.
  { left. split; [done|]. intros j Hj. lia. }
  cbn [FindEmptySlot_loop].
  pose proof (word_at_uint64 bm i Hbm) as Hw.
  destruct (word_at bm i =? 0) eqn:Hz; cbn [negb].
  - apply Z.eqb_eq in Hz.
    destruct (IH (i + 1) ltac:(lia)) as [[Hr Hzero]|(Hr & Hbit & Hlow)].
    + left. split; [done|]. intros j Hj.
      destruct (decide (j = i)) as [->|]; [done|]. apply Hzero. lia.
    + right. split; [lia|]. split; [done|]. intros k Hk.
      destruct (Z_lt_le_dec k ((i + 1) * 64)) as [Hk1|Hk1].
      * apply slot_bit_zero_word; [lia|].
        replace (k / 64) with i; [done|].
        apply Z.div_unique with (r := k - i * 64); lia.
      * apply Hlow. lia.
  - apply Z.eqb_neq in Hz.
    assert (0 < word_at bm i) as Hpos by (destruct Hw; lia).
    destruct (ffsll_spec _ Hpos) as (Hp0 & Hbit & Hlow).
    pose proof (ffsll_lt_64 _ Hw Hpos) as Hp64.
    right. split; [lia|]. split.
    + rewrite slot_bit_word by lia. done.
    + intros k Hk. replace k with ((k - i * 64) + i * 64) by lia.
      rewrite slot_bit_word by lia. apply Hlow. lia.
Qed.

(** [IsFull]'s scan answers [true] exactly when no bit under [left] is set
    in the words it goes through. *)
Lemma IsFull_loop_spec bm n i left :
  Forall is_uint64 bm -> 0 <= i ->
  IsFull_loop bm n i left = true
  <-> forall k, i * 64 <= k < (i + Z.of_nat n) * 64 -> k < i * 64 + left ->
                slot_bit bm k = false.
Proof.
  intros Hbm. revert i left. induction n as [|n IH]; intros i left Hi.
  { split; [|done]. intros _ k Hk. lia. }
  cbn [IsFull_loop].
  pose proof (word_at_uint64 bm i Hbm) as Hw.
  destruct (word_at bm i =? 0) eqn:Hz; cbn [negb andb].
  - apply Z.eqb_eq in Hz. rewrite (IH (i + 1) (left - 64)) by lia.
    split; intros H k Hk Hleft.
    + destruct (Z_lt_le_dec k ((i + 1) * 64)) as [Hk1|Hk1].
      * apply slot_bit_zero_word; [lia|].
        replace (k / 64) with i; [done|].
        apply Z.div_unique with (r := k - i * 64); lia.
      * apply H; lia.
    + apply H; lia.
  - apply Z.eqb_neq in Hz.
    assert (0 < word_at bm i) as Hpos by (destruct Hw; lia).
    destruct (ffsll_spec _ Hpos) as (Hp0 & Hbit & Hlow).
    pose proof (ffsll_lt_64 _ Hw Hpos) as Hp64.
    destruct (ffsll (word_at bm i) - 1 <? left) eqn:Hlt.
    + apply Z.ltb_lt in Hlt. split; [done|]. intros H.
      specialize (H ((ffsll (word_at bm i) - 1) + i * 64) ltac:(lia) ltac:(lia)).
      rewrite slot_bit_word, Hbit in H by lia. done.
    + apply Z.ltb_ge in Hlt. rewrite (IH (i + 1) (left - 64)) by lia.
      split; intros H k Hk Hleft.
      * destruct (Z_lt_le_dec k ((i + 1) * 64)) as [Hk1|Hk1].
        -- replace k with ((k - i * 64) + i * 64) by lia.
           rewrite slot_bit_word by lia. apply Hlow. lia.
        -- apply H; lia.
      * apply H; lia.
Qed.

(** [FindEmptySlot] on a builder: [-1] when every word is zero, else the
    least set bit of the whole bitmap. *)
Lemma FindEmptySlot_spec b :
  Forall is_uint64 (bitmap b) ->
  Z.of_nat (length (bitmap b)) = bitmapSize b ->
  (FindEmptySlot b = -1 /\ forall k, slot_bit (bitmap b) k = false)
  \/ (0 <= FindEmptySlot b < 64 * bitmapSize b
      /\ slot_bit (bitmap b) (FindEmptySlot b) = true
      /\ forall k, k < FindEmptySlot b -> slot_bit (bitmap b) k = false).
Proof.
  intros Hbm Hlen. unfold FindEmptySlot.
  destruct (FindEmptySlot_loop_spec (bitmap b) (Z.to_nat (bitmapSize b)) 0
              Hbm ltac:(lia)) as [[Hr Hzero]|(Hr & Hbit & Hlow)].
  - left. split; [done|]. intros k.
    destruct (Z_lt_le_dec k 0); [by apply slot_bit_negative|].
    destruct (Z_lt_le_dec k (64 * Z.of_nat (length (bitmap b))));
      [|by apply slot_bit_outside].
    apply slot_bit_zero_word; [done|]. apply Hzero.
    split; [apply Z.div_pos; lia|].
    assert (k / 64 < Z.of_nat (length (bitmap b)))
      by (apply Z.div_lt_upper_bound; lia).
    lia.
  - right. split; [lia|]. split; [done|]. intros k Hk.
    destruct (Z_lt_le_dec k 0); [by apply slot_bit_negative|].
    apply Hlow. lia.
Qed.

Lemma IsFull_spec b :
  Forall is_uint64 (bitmap b) ->
  Z.of_nat (length (bitmap b)) = bitmapSize b ->
  IsFull b = true
  <-> forall k, 0 <= k < blockSize b -> slot_bit (bitmap b) k = false.
Proof.
  intros Hbm Hlen. unfold IsFull.
  rewrite IsFull_loop_spec by (done || lia). split; intros H k Hk.
  - destruct (Z_lt_le_dec k (64 * Z.of_nat (length (bitmap b))));
      [|by apply slot_bit_outside].
    apply H; lia.
  - intros Hleft. apply H. lia.
Qed.

(** ** Acquiring and releasing a bit *)

Lemma shl64_testbit bit j :
  0 <= bit < 64 -> 0 <= j -> Z.testbit (shl64 bit) j = bool_decide (j = bit).
Proof.
  intros Hbit Hj. unfold shl64.
  rewrite Z.land_spec, testbit_UINT64_MAX, Z.shiftl_1_l.
  rewrite Z.pow2_bits_eqb by lia.
  case_bool_decide as Heq.
  - subst j. rewrite Z.eqb_refl. simpl.
    apply andb_true_iff. split; [apply Z.leb_le|apply Z.ltb_lt]; lia.
  - replace (bit =? j) with false; [done|]. symmetry. apply Z.eqb_neq. lia.
Qed.

Lemma ACQUIRE_testbit w bit j :
  is_uint64 w -> 0 <= bit < 64 -> 0 <= j ->
  Z.testbit (ACQUIRE_BIT_RESOURCE w bit) j
  = if bool_decide (j = bit) then false else Z.testbit w j.
Proof.
  intros Hw Hbit Hj. unfold ACQUIRE_BIT_RESOURCE, not64.
  rewrite !Z.land_spec, Z.lnot_spec, shl64_testbit, testbit_UINT64_MAX by lia.
  case_bool_decide; simpl; [apply andb_false_r|].
  destruct (Z_lt_le_dec j 64).
  - replace (0 <=? j) with true by (symmetry; apply Z.leb_le; lia).
    replace (j <? 64) with true by (symmetry; apply Z.ltb_lt; lia).
    apply andb_true_r.
  - rewrite (uint64_testbit_high w j) by done. done.
Qed.

Lemma FREE_testbit w bit j :
  is_uint64 w -> 0 <= bit < 64 -> 0 <= j ->
  Z.testbit (FREE_BIT_RESOURCE w bit) j
  = if bool_decide (j = bit) then true else Z.testbit w j.
Proof.
  intros Hw Hbit Hj. unfold FREE_BIT_RESOURCE.
  rewrite Z.lor_spec, shl64_testbit by lia.
  case_bool_decide; simpl; [apply orb_true_r|apply orb_false_r].
Qed.

Lemma ACQUIRE_uint64 w bit :
  is_uint64 w -> 0 <= bit < 64 -> is_uint64 (ACQUIRE_BIT_RESOURCE w bit).
Proof.
  intros Hw Hbit. apply is_uint64_bits.
  - unfold ACQUIRE_BIT_RESOURCE. apply Z.land_nonneg. left. apply Hw.
  - intros j Hj. rewrite ACQUIRE_testbit by (done || lia).
    case_bool_decide; [done|]. by apply uint64_testbit_high.
Qed.

Lemma FREE_uint64 w bit :
  is_uint64 w -> 0 <= bit < 64 -> is_uint64 (FREE_BIT_RESOURCE w bit).
Proof.
  intros Hw Hbit. apply is_uint64_bits.
  - unfold FREE_BIT_RESOURCE, shl64. apply Z.lor_nonneg. split; [apply Hw|].
    apply Z.land_nonneg. right. by compute.
  - intros j Hj. rewrite FREE_testbit by (done || lia).
    case_bool_decide; [lia|]. by apply uint64_testbit_high.
Qed.

Lemma word_at_insert bm (i : nat) x j :
  (i < length bm)%nat -> 0 <= j ->
  word_at (<[i := x]> bm) j = if bool_decide (j = Z.of_nat i) then x
                              else word_at bm j.
Proof.
  intros Hi Hj. unfold word_at.
  replace (j <? 0) with false by (symmetry; apply Z.ltb_ge; lia).
  case_bool_decide as Heq.
  - subst j. rewrite Nat2Z.id, list_lookup_insert_eq by done. done.
  - rewrite list_lookup_insert_ne by lia. done.
Qed.

(** A macro that sets bit [bit] of a word to [v] and keeps the others, applied
    to slot [index] of a bitmap. *)
Lemma bitmap_apply_spec f (v : bool) bm index :
  (forall w bit j, is_uint64 w -> 0 <= bit < 64 -> 0 <= j ->
     Z.testbit (f w bit) j = if bool_decide (j = bit) then v
                             else Z.testbit w j) ->
  (forall w bit, is_uint64 w -> 0 <= bit < 64 -> is_uint64 (f w bit)) ->
  Forall is_uint64 bm ->
  0 <= index < 64 * Z.of_nat (length bm) ->
  exists bm',
    bitmap_apply f bm index = Some bm'
    /\ length bm' = length bm
    /\ Forall is_uint64 bm'
    /\ forall k, slot_bit bm' k = if bool_decide (k = index) then v
                                  else slot_bit bm k.
Proof.
  intros Hbits Hrange Hbm Hindex. unfold bitmap_apply.
  rewrite Z.quot_div_nonneg, Z.rem_mod_nonneg by lia.
  assert (0 <= index / 64 < Z.of_nat (length bm)) as Hq.
  { split; [apply Z.div_pos; lia|apply Z.div_lt_upper_bound; lia]. }
  pose proof (Z.mod_pos_bound index 64 ltac:(lia)) as Hr.
  replace (0 <=? index) with true by (symmetry; apply Z.leb_le; lia).
  replace (index / 64 <? Z.of_nat (length bm)) with true
    by (symmetry; apply Z.ltb_lt; lia).
  eexists. split; [done|]. split; [apply length_insert|].
  pose proof (word_at_uint64 bm (index / 64) Hbm) as Hw.
  split.
  { apply Forall_insert; [done|]. by apply Hrange. }
  intros k. destruct (Z_lt_le_dec k 0) as [Hneg|Hpos].
  { rewrite !slot_bit_negative by done. case_bool_decide; [lia|done]. }
  rewrite !slot_bit_split by done.
  rewrite word_at_insert by (lia || (apply Z.div_pos; lia)).
  rewrite Z2Nat.id by lia.
  pose proof (Z.mod_pos_bound k 64 ltac:(lia)) as Hkr.
  pose proof (Z.div_mod k 64 ltac:(lia)) as Hk.
  pose proof (Z.div_mod index 64 ltac:(lia)) as Hi.
  case_bool_decide as Hword.
  - rewrite Hbits, <- Hword by (done || lia).
    repeat case_bool_decide; try done; lia.
  - case_bool_decide; [|done]. subst k. done.
Qed.

Lemma bitmap_acquire bm index :
  Forall is_uint64 bm -> 0 <= index < 64 * Z.of_nat (length bm) ->
  exists bm',
    bitmap_apply ACQUIRE_BIT_RESOURCE bm index = Some bm'
    /\ length bm' = length bm
    /\ Forall is_uint64 bm'
    /\ forall k, slot_bit bm' k = if bool_decide (k = index) then false
                                  else slot_bit bm k.
Proof.
  apply bitmap_apply_spec; auto using ACQUIRE_testbit, ACQUIRE_uint64.
Qed.

Lemma bitmap_free bm index :
  Forall is_uint64 bm -> 0 <= index < 64 * Z.of_nat (length bm) ->
  exists bm',
    bitmap_apply FREE_BIT_RESOURCE bm index = Some bm'
    /\ length bm' = length bm
    /\ Forall is_uint64 bm'
    /\ forall k, slot_bit bm' k = if bool_decide (k = index) then true
                                  else slot_bit bm k.
Proof.
  apply bitmap_apply_spec; auto using FREE_testbit, FREE_uint64.
Qed.

(** ** Reading and writing byte regions *)

Lemma region_read_Some (buf : list byte) off n :
  0 <= off -> 0 <= n -> off + n <= Z.of_nat (length buf) ->
  region_read buf off n = Some (take (Z.to_nat n) (drop (Z.to_nat off) buf)).
Proof.
  intros Hoff Hn Hlen. unfold region_read.
  replace (0 <=? off) with true by (symmetry; apply Z.leb_le; lia).
  replace (0 <=? n) with true by (symmetry; apply Z.leb_le; lia).
  replace (off + n <=? Z.of_nat (length buf)) with true
    by (symmetry; apply Z.leb_le; lia).
  done.
Qed.

Lemma region_read_inv (buf : list byte) off n bytes :
  region_read buf off n = Some bytes ->
  0 <= off /\ 0 <= n /\ off + n <= Z.of_nat (length buf)
  /\ bytes = take (Z.to_nat n) (drop (Z.to_nat off) buf).
Proof.
  unfold region_read. intros H.
  destruct (0 <=? off) eqn:H1; [|done]. destruct (0 <=? n) eqn:H2; [|done].
  destruct (off + n <=? Z.of_nat (length buf)) eqn:H3; [|done].
  apply Z.leb_le in H1, H2, H3. simpl in H. by inversion H.
Qed.

Lemma region_read_length (buf : list byte) off n bytes :
  region_read buf off n = Some bytes -> Z.of_nat (length bytes) = n.
Proof.
  intros H. apply region_read_inv in H as (? & ? & ? & ->).
  rewrite length_take, length_drop. lia.
Qed.

Lemma region_read_all (bytes : list byte) :
  region_read bytes 0 (Z.of_nat (length bytes)) = Some bytes.
Proof.
  rewrite region_read_Some by lia. simpl. rewrite drop_0, Nat2Z.id.
  by rewrite firstn_all.
Qed.

Lemma region_write_Some (buf : list byte) off src :
  0 <= off -> off + Z.of_nat (length src) <= Z.of_nat (length buf) ->
  region_write buf off src
  = Some (take (Z.to_nat off) buf ++ src
          ++ drop (Z.to_nat off + length src) buf).
Proof.
  intros Hoff Hlen. unfold region_write.
  replace (0 <=? off) with true by (symmetry; apply Z.leb_le; lia).
  replace (off + Z.of_nat (length src) <=? Z.of_nat (length buf)) with true
    by (symmetry; apply Z.leb_le; lia).
  done.
Qed.

Lemma region_write_inv (buf : list byte) off src buf' :
  region_write buf off src = Some buf' ->
  0 <= off /\ off + Z.of_nat (length src) <= Z.of_nat (length buf)
  /\ buf' = take (Z.to_nat off) buf ++ src
            ++ drop (Z.to_nat off + length src) buf.
Proof.
  unfold region_write. intros H.
  destruct (0 <=? off) eqn:H1; [|done].
  destruct (off + Z.of_nat (length src) <=? Z.of_nat (length buf)) eqn:H2;
    [|done].
  apply Z.leb_le in H1, H2. simpl in H. by inversion H.
Qed.

Lemma region_write_length (buf : list byte) off src buf' :
  region_write buf off src = Some buf' -> length buf' = length buf.
Proof.
  intros H. apply region_write_inv in H as (? & ? & ->).
  rewrite !length_app, length_take, length_drop. lia.
Qed.

(** A write changes the bytes [[off, off + length src)] and no other. *)
Lemma region_write_lookup (buf : list byte) off src buf' (i : nat) :
  region_write buf off src = Some buf' ->
  buf' !! i
  = if bool_decide (off <= Z.of_nat i < off + Z.of_nat (length src))
    then src !! (i - Z.to_nat off)%nat
    else buf !! i.
Proof.
  intros H. apply region_write_inv in H as (Hoff & Hlen & ->).
  case_bool_decide as Hi.
  - rewrite lookup_app_r by (rewrite length_take; lia).
    rewrite length_take, lookup_app_l by lia. f_equal. lia.
  - destruct (Z_lt_le_dec (Z.of_nat i) off) as [Hlo|Hhi].
    + rewrite lookup_app_l by (rewrite length_take; lia).
      apply lookup_take_lt. lia.
    + rewrite lookup_app_r by (rewrite length_take; lia).
      rewrite length_take, lookup_app_r by lia.
      rewrite lookup_drop. f_equal. lia.
Qed.

Lemma region_read_ext (buf1 buf2 : list byte) off n :
  length buf1 = length buf2 ->
  (forall i : nat, off <= Z.of_nat i < off + n -> buf1 !! i = buf2 !! i) ->
  region_read buf1 off n = region_read buf2 off n.
Proof.
  intros Hlen Hext. unfold region_read. rewrite Hlen.
  destruct (0 <=? off) eqn:H1; [|done]. destruct (0 <=? n) eqn:H2; [|done].
  destruct (off + n <=? Z.of_nat (length buf2)) eqn:H3; [|done].
  apply Z.leb_le in H1, H2, H3. simpl. f_equal.
  apply list_eq. intros i.
  destruct (decide (i < Z.to_nat n)%nat) as [Hi|Hi].
  - rewrite !lookup_take_lt, !lookup_drop by done. apply Hext. lia.
  - rewrite !lookup_take_ge by lia. done.
Qed.

Lemma region_read_write_same (buf : list byte) off src buf' :
  region_write buf off src = Some buf' ->
  region_read buf' off (Z.of_nat (length src)) = Some src.
Proof.
  intros H. pose proof (region_write_length _ _ _ _ H) as Hlen.
  pose proof (region_write_inv _ _ _ _ H) as (Hoff & Hfit & _).
  rewrite region_read_Some by lia. f_equal. apply list_eq. intros i.
  destruct (decide (i < length src)%nat) as [Hi|Hi].
  - rewrite lookup_take_lt, lookup_drop by lia.
    rewrite (region_write_lookup _ _ _ _ _ H).
    rewrite bool_decide_eq_true_2 by lia. f_equal. lia.
  - rewrite lookup_take_ge by lia. symmetry. apply lookup_ge_None_2. lia.
Qed.

Lemma region_read_write_other (buf : list byte) off src buf' off2 n :
  region_write buf off src = Some buf' ->
  off2 + n <= off \/ off + Z.of_nat (length src) <= off2 ->
  region_read buf' off2 n = region_read buf off2 n.
Proof.
  intros H Hdisj. apply region_read_ext.
  - by eapply region_write_length.
  - intros i Hi. rewrite (region_write_lookup _ _ _ _ _ H).
    rewrite bool_decide_eq_false_2 by lia. done.
Qed.

(** ** Copies into the store's memory *)

Lemma changed_within_refl rs lo hi m : changed_within rs lo hi m m.
Proof. intros r. repeat split; [done|]. intros buf Hbuf. by exists buf. Qed.

Lemma changed_within_trans rs lo hi m1 m2 m3 :
  changed_within rs lo hi m1 m2 -> changed_within rs lo hi m2 m3 ->
  changed_within rs lo hi m1 m3.
Proof.
  intros H12 H23 r.
  destruct (H12 r) as (Ha1 & Hb1 & Hc1), (H23 r) as (Ha2 & Hb2 & Hc2).
  split; [|split].
  - intros Hr. rewrite Ha2, Ha1; done.
  - auto.
  - intros buf Hbuf. destruct (Hc1 buf Hbuf) as (buf2 & Hbuf2 & Hlen2 & Hext2).
    destruct (Hc2 buf2 Hbuf2) as (buf3 & Hbuf3 & Hlen3 & Hext3).
    exists buf3. split; [done|]. split; [congruence|].
    intros i Hi. rewrite Hext3, Hext2; done.
Qed.

Lemma changed_within_weaken rs rs' lo hi m m' :
  rs ⊆ rs' -> changed_within rs lo hi m m' -> changed_within rs' lo hi m m'.
Proof.
  intros Hsub H r. destruct (H r) as (Ha & Hb & Hc).
  split; [|done]. intros Hr. apply Ha. intros Hin. apply Hr, Hsub, Hin.
Qed.

Lemma load_length m src n bytes :
  load m src n = Some bytes -> Z.of_nat (length bytes) = n.
Proof.
  destruct src as [|caller|region off]; simpl; [done| |].
  - apply region_read_length.
  - destruct (m !! region); simpl; [apply region_read_length|done].
Qed.

Lemma load_span m bytes :
  load m (caller_buffer bytes) (Z.of_nat (length bytes)) = Some bytes.
Proof. apply region_read_all. Qed.

Lemma concurrent_memcpy_inv m dst off src n m' :
  concurrent_memcpy m dst off src n = Some m' ->
  exists bytes buf buf',
    load m src n = Some bytes
    /\ m !! dst = Some buf
    /\ region_write buf off bytes = Some buf'
    /\ m' = <[dst := buf']> m.
Proof.
  unfold concurrent_memcpy. intros H.
  destruct (load m src n) as [bytes|] eqn:Hload; [|done].
  destruct (m !! dst) as [buf|] eqn:Hdst; [|done]. simpl in H.
  destruct (region_write buf off bytes) as [buf'|] eqn:Hwrite; [|done].
  simpl in H. exists bytes, buf, buf'. repeat split; try done.
  destruct src; [by inversion H|by inversion H|].
  destruct (_ && _); [done|by inversion H].
Qed.

(** A copy from a buffer of the caller. *)
Lemma concurrent_memcpy_span m dst off bytes buf :
  m !! dst = Some buf ->
  0 <= off -> off + Z.of_nat (length bytes) <= Z.of_nat (length buf) ->
  exists buf',
    region_write buf off bytes = Some buf'
    /\ concurrent_memcpy m dst off (caller_buffer bytes)
         (Z.of_nat (length bytes)) = Some (<[dst := buf']> m).
Proof.
  intros Hdst Hoff Hfit. eexists. split; [by apply region_write_Some|].
  unfold concurrent_memcpy. rewrite load_span, Hdst. simpl.
  rewrite region_write_Some by done. done.
Qed.

(** A copy from another region. *)
Lemma concurrent_memcpy_tensor m dst off src soff n sbuf bytes buf :
  src ≠ dst ->
  m !! src = Some sbuf -> region_read sbuf soff n = Some bytes ->
  m !! dst = Some buf -> 0 <= off -> off + n <= Z.of_nat (length buf) ->
  exists buf',
    region_write buf off bytes = Some buf'
    /\ concurrent_memcpy m dst off (tensor_at src soff) n
       = Some (<[dst := buf']> m).
Proof.
  intros Hne Hsrc Hread Hdst Hoff Hfit.
  pose proof (region_read_length _ _ _ _ Hread) as Hlen.
  eexists. split; [apply region_write_Some; lia|].
  unfold concurrent_memcpy. simpl. rewrite Hsrc. simpl. rewrite Hread, Hdst.
  simpl. rewrite region_write_Some by lia. simpl.
  rewrite bool_decide_eq_false_2 by done. done.
Qed.

Lemma concurrent_memcpy_changed rs lo hi m dst off src n m' :
  concurrent_memcpy m dst off src n = Some m' ->
  dst ∈ rs -> lo <= off -> off + n <= hi ->
  changed_within rs lo hi m m'.
Proof.
  intros H Hdst Hlo Hhi.
  apply concurrent_memcpy_inv in H
    as (bytes & buf & buf' & Hload & Hbuf & Hwrite & ->).
  apply load_length in Hload.
  intros r. destruct (decide (r = dst)) as [->|Hne].
  - split; [done|]. split; [congruence|]. intros buf0 Hbuf0.
    assert (buf0 = buf) as -> by congruence.
    exists buf'. rewrite lookup_insert_eq. split; [done|].
    split; [by eapply region_write_length|].
    intros i Hi. rewrite (region_write_lookup _ _ _ _ _ Hwrite).
    rewrite bool_decide_eq_false_2 by lia. done.
  - rewrite lookup_insert_ne by done. repeat split; [done|].
    intros buf0 Hbuf0. by exists buf0.
Qed.

Lemma changed_within_slot_bytes rs tensorNBytes index m m' r j :
  changed_within rs (index * tensorNBytes)
    (index * tensorNBytes + tensorNBytes) m m' ->
  j ≠ index ->
  slot_bytes m' tensorNBytes r j = slot_bytes m tensorNBytes r j.
Proof.
  intros H Hj. unfold slot_bytes, load.
  destruct (H r) as (_ & Hnone & Hsome).
  destruct (m !! r) as [buf|] eqn:Hbuf.
  - destruct (Hsome buf eq_refl) as (buf' & -> & Hlen & Hext). simpl.
    destruct (Z_lt_le_dec tensorNBytes 0) as [Hneg|Hpos].
    { unfold region_read.
      replace (0 <=? tensorNBytes) with false
        by (symmetry; apply Z.leb_gt; lia).
      by rewrite !andb_false_r. }
    apply region_read_ext; [done|]. intros i Hi. apply Hext. nia.
  - rewrite Hnone by done. done.
Qed.

Lemma changed_within_outside rs lo hi m m' r :
  changed_within rs lo hi m m' -> r ∉ rs -> m' !! r = m !! r.
Proof. intros H Hr. by apply H. Qed.

Lemma changed_within_length rs lo hi m m' r :
  changed_within rs lo hi m m' -> length <$> m' !! r = length <$> m !! r.
Proof.
  intros H. destruct (H r) as (_ & Hnone & Hsome).
  destruct (m !! r) as [buf|] eqn:Hbuf.
  - destruct (Hsome buf eq_refl) as (buf' & -> & Hlen & _). simpl. by f_equal.
  - by rewrite Hnone.
Qed.

Lemma builder_wf_changed rs lo hi m m' b :
  changed_within rs lo hi m m' -> builder_wf m b -> builder_wf m' b.
Proof.
  intros H [ ]. split; try assumption.
  eapply Forall_impl; [eassumption|]. intros r Hr. simpl in *.
  by rewrite (changed_within_length _ _ _ _ _ r H).
Qed.

Lemma builder_wf_set_bitmap m b bm :
  builder_wf m b -> length bm = length (bitmap b) -> Forall is_uint64 bm ->
  builder_wf m (set_bitmap b bm).
Proof.
  intros [ ] Hlen Hbm. split; cbn [set_bitmap blockSize bitmapSize bitmap
    tensorNBytes layer keyStateTensorBuilderList valueStateTensorBuilderList
    regions]; try assumption.
  by rewrite Hlen.
Qed.

(** ** Update *)

Lemma int_mul_inv a b r : int_mul a b = Some r -> r = a * b.
Proof. unfold int_mul. destruct (in_int _); [by inversion 1|done]. Qed.

Lemma int_mul_Some a b :
  INT_MIN <= a * b <= INT_MAX -> int_mul a b = Some (a * b).
Proof.
  intros H. unfold int_mul, in_int.
  replace (INT_MIN <=? a * b) with true by (symmetry; apply Z.leb_le; lia).
  replace (a * b <=? INT_MAX) with true by (symmetry; apply Z.leb_le; lia).
  done.
Qed.

Lemma to_size_t_int x : 0 <= x <= INT_MAX -> to_size_t x = x.
Proof.
  intros H. unfold to_size_t, INT_MAX in *. apply Z.mod_small. lia.
Qed.

Lemma to_int_small x : 0 <= x <= INT_MAX -> to_int x = x.
Proof.
  intros H. unfold to_int, INT_MAX in *. rewrite Z.mod_small; lia.
Qed.

Lemma layer_regions_key b cl (l : nat) r :
  cl <= Z.of_nat l -> 0 <= cl ->
  keyStateTensorBuilderList b !! l = Some r -> r ∈ layer_regions b cl.
Proof.
  intros Hl Hcl Hr. apply elem_of_app. left.
  apply list_elem_of_lookup. exists (l - Z.to_nat cl)%nat.
  rewrite lookup_drop. rewrite <- Hr. f_equal. lia.
Qed.

Lemma layer_regions_value b cl (l : nat) r :
  cl <= Z.of_nat l -> 0 <= cl ->
  valueStateTensorBuilderList b !! l = Some r -> r ∈ layer_regions b cl.
Proof.
  intros Hl Hcl Hr. apply elem_of_app. right.
  apply list_elem_of_lookup. exists (l - Z.to_nat cl)%nat.
  rewrite lookup_drop. rewrite <- Hr. f_equal. lia.
Qed.

Lemma layer_regions_subseteq b cl : layer_regions b cl ⊆ regions b.
Proof.
  intros r Hr. apply elem_of_app in Hr as [Hr|Hr]; apply elem_of_app;
    [left|right]; eapply list_elem_of_lookup;
    apply list_elem_of_lookup in Hr as [i Hi]; rewrite lookup_drop in Hi; eauto.
Qed.

Lemma layer_regions_later b cl (l : nat) r :
  NoDup (regions b) -> Z.of_nat l < cl ->
  keyStateTensorBuilderList b !! l = Some r
  \/ valueStateTensorBuilderList b !! l = Some r ->
  r ∉ layer_regions b cl.
Proof.
  intros Hnd Hl Hr Hin. apply NoDup_app in Hnd as (Hk & Hkv & Hv).
  apply elem_of_app in Hin as [Hin|Hin];
    apply list_elem_of_lookup in Hin as [i Hi]; rewrite lookup_drop in Hi.
  - destruct Hr as [Hr|Hr].
    + pose proof (NoDup_lookup _ _ _ _ Hk Hr Hi). lia.
    + eapply Hkv; eapply list_elem_of_lookup; eauto.
  - destruct Hr as [Hr|Hr].
    + eapply Hkv; eapply list_elem_of_lookup; eauto.
    + pose proof (NoDup_lookup _ _ _ _ Hv Hr Hi). lia.
Qed.

Lemma regions_key_value b (l : nat) kr vr :
  NoDup (regions b) ->
  keyStateTensorBuilderList b !! l = Some kr ->
  valueStateTensorBuilderList b !! l = Some vr -> kr ≠ vr.
Proof.
  intros Hnd Hk Hv ->. apply NoDup_app in Hnd as (_ & Hkv & _).
  eapply Hkv; eapply list_elem_of_lookup; eauto.
Qed.

(** Whatever its inputs, the loop of [Update] writes only to slot [index] of
    the regions of the layers it goes through. *)
Lemma Update_loop_changed b kvState index n cl m status m' :
  Update_loop b kvState index n cl m = Some (status, m') -> 0 <= cl ->
  changed_within (layer_regions b cl) (index * tensorNBytes b)
    (index * tensorNBytes b + tensorNBytes b) m m'.
Proof.
  revert cl m. induction n as [|n IH]; intros cl m H Hcl; cbn [Update_loop] in H.
  { inversion H. apply changed_within_refl. }
  destruct (kvState !! Z.to_nat cl) as [[keyState valueState]|]; [|done].
  simpl in H. destruct (negb _).
  { inversion H. apply changed_within_refl. }
  destruct (keyStateTensorBuilderList b !! Z.to_nat cl) as [kr|] eqn:Hkr;
    [|done]. simpl in H.
  destruct (valueStateTensorBuilderList b !! Z.to_nat cl) as [vr|] eqn:Hvr;
    [|done]. simpl in H.
  destruct (int_mul index (tensorNBytes b)) as [off|] eqn:Hoff; [|done].
  apply int_mul_inv in Hoff as ->. simpl in H.
  destruct (concurrent_memcpy m kr _ _ _) as [m1|] eqn:H1; [|done].
  simpl in H.
  destruct (concurrent_memcpy m1 vr _ _ _) as [m2|] eqn:H2; [|done].
  simpl in H. apply IH in H; [|lia].
  eapply changed_within_trans; [|eapply changed_within_trans].
  - eapply concurrent_memcpy_changed; [exact H1| |lia|lia].
    eapply layer_regions_key; [|done|done]. lia.
  - eapply concurrent_memcpy_changed; [exact H2| |lia|lia].
    eapply layer_regions_value; [|done|done]. lia.
  - eapply changed_within_weaken; [|exact H].
    intros r Hr. apply elem_of_app in Hr as [Hr|Hr];
      apply list_elem_of_lookup in Hr as [i Hi]; rewrite lookup_drop in Hi.
    + eapply layer_regions_key; [|done|exact Hi]. lia.
    + eapply layer_regions_value; [|done|exact Hi]. lia.
Qed.

Lemma spans_lookup contents (l : nat) kv :
  contents !! l = Some kv -> spans contents !! l = Some (span kv.1, span kv.2).
Proof. unfold spans. rewrite list_lookup_fmap. by intros ->. Qed.

Lemma wf_region_lookup m b r :
  builder_wf m b -> r ∈ regions b ->
  exists buf, m !! r = Some buf
              /\ Z.of_nat (length buf) = blockSize b * tensorNBytes b.
Proof.
  intros Hwf Hr. pose proof (wf_regions _ _ Hwf) as Hall.
  rewrite Forall_forall in Hall. specialize (Hall r Hr).
  destruct (m !! r) as [buf|]; [|done]. exists buf. split; [done|].
  simpl in Hall. inversion Hall as [Hlen].
  destruct Hwf. rewrite Hlen, Z2Nat.id; nia.
Qed.

Lemma key_region b (l : nat) r :
  keyStateTensorBuilderList b !! l = Some r -> r ∈ regions b.
Proof.
  intros H. apply elem_of_app. left. eapply list_elem_of_lookup; eauto.
Qed.

Lemma value_region b (l : nat) r :
  valueStateTensorBuilderList b !! l = Some r -> r ∈ regions b.
Proof.
  intros H. apply elem_of_app. right. eapply list_elem_of_lookup; eauto.
Qed.

Lemma slot_bytes_lookup m tensorNBytes r index buf :
  m !! r = Some buf ->
  slot_bytes m tensorNBytes r index
  = region_read buf (index * tensorNBytes) tensorNBytes.
Proof. intros H. unfold slot_bytes, load. by rewrite H. Qed.

(** With full-size spans the loop of [Update] runs to its end and leaves
    every layer's key and value bytes in slot [index]. *)
Lemma Update_loop_ok b contents index n cl m :
  builder_wf m b -> full_size b contents ->
  0 <= index < blockSize b -> 0 <= cl -> cl + Z.of_nat n = layer b ->
  exists m',
    Update_loop b (spans contents) index n cl m = Some (OK, m')
    /\ forall (l : nat) kv kr vr,
         cl <= Z.of_nat l ->
         contents !! l = Some kv ->
         keyStateTensorBuilderList b !! l = Some kr ->
         valueStateTensorBuilderList b !! l = Some vr ->
         slot_bytes m' (tensorNBytes b) kr index = Some kv.1
         /\ slot_bytes m' (tensorNBytes b) vr index = Some kv.2.
Proof.
  intros Hwf [Hlayers Hsizes] Hindex. revert cl m Hwf.
  induction n as [|n IH]; intros cl m Hwf Hcl Hn.
  { exists m. split; [done|]. intros l kv kr vr Hl Hkv _ _.
    apply lookup_lt_Some in Hkv. lia. }
  pose proof Hwf as [ ].
  destruct (lookup_lt_is_Some_2 contents (Z.to_nat cl) ltac:(lia)) as [kv Hkv].
  destruct (lookup_lt_is_Some_2 (keyStateTensorBuilderList b) (Z.to_nat cl)
              ltac:(lia)) as [kr Hkr].
  destruct (lookup_lt_is_Some_2 (valueStateTensorBuilderList b) (Z.to_nat cl)
              ltac:(lia)) as [vr Hvr].
  destruct (Forall_lookup_1 _ _ _ _ Hsizes Hkv) as [Hk Hv].
  destruct (wf_region_lookup m b kr Hwf (key_region _ _ _ Hkr))
    as (kbuf & Hkbuf & Hklen).
  destruct (wf_region_lookup m b vr Hwf (value_region _ _ _ Hvr))
    as (vbuf & Hvbuf & Hvlen).
  pose proof (regions_key_value b _ kr vr wf_distinct0 Hkr Hvr) as Hne.
  destruct (concurrent_memcpy_span m kr (index * tensorNBytes b) kv.1 kbuf
              Hkbuf ltac:(nia) ltac:(nia)) as (kbuf' & Hkw & Hkcpy).
  set (m1 := <[kr := kbuf']> m) in *.
  assert (m1 !! vr = Some vbuf) as Hvbuf1
    by (unfold m1; rewrite lookup_insert_ne; done).
  destruct (concurrent_memcpy_span m1 vr (index * tensorNBytes b) kv.2 vbuf
              Hvbuf1 ltac:(nia) ltac:(nia)) as (vbuf' & Hvw & Hvcpy).
  set (m2 := <[vr := vbuf']> m1) in *.
  rewrite Hk in Hkcpy. rewrite Hv in Hvcpy.
  assert (builder_wf m2 b) as Hwf2.
  { eapply builder_wf_changed; [|exact Hwf].
    eapply changed_within_trans;
      eapply (concurrent_memcpy_changed (regions b) (index * tensorNBytes b)
                (index * tensorNBytes b + tensorNBytes b));
      [exact Hkcpy|eapply key_region; exact Hkr|lia|lia
      |exact Hvcpy|eapply value_region; exact Hvr|lia|lia]. }
  destruct (IH (cl + 1) m2 Hwf2 ltac:(lia) ltac:(lia)) as (m' & Hloop & Hcontent).
  exists m'. split.
  { cbn [Update_loop]. rewrite (spans_lookup _ _ _ Hkv). simpl.
    rewrite to_size_t_int, Hk, Hv, Z.eqb_refl by done. simpl.
    rewrite Hkr, Hvr. simpl. rewrite int_mul_Some by (unfold INT_MIN; nia).
    simpl. rewrite Hkcpy. simpl. rewrite Hvcpy. simpl. exact Hloop. }
  intros l kv' kr' vr' Hl Hkv' Hkr' Hvr'.
  destruct (decide (l = Z.to_nat cl)) as [->|Hnel];
    [|apply (Hcontent l); (done || lia)].
  assert (kv' = kv) as -> by congruence.
  assert (kr' = kr) as -> by congruence.
  assert (vr' = vr) as -> by congruence.
  apply Update_loop_changed in Hloop; [|lia].
  split.
  - rewrite (slot_bytes_lookup _ _ _ _ kbuf').
    + pose proof (region_read_write_same _ _ _ _ Hkw) as Hrd.
      by rewrite Hk in Hrd.
    + rewrite (changed_within_outside _ _ _ _ _ kr Hloop).
      * unfold m2, m1. rewrite lookup_insert_ne, lookup_insert_eq; done.
      * eapply layer_regions_later; [done| |left; exact Hkr]. lia.
  - rewrite (slot_bytes_lookup _ _ _ _ vbuf').
    + pose proof (region_read_write_same _ _ _ _ Hvw) as Hrd.
      by rewrite Hv in Hrd.
    + rewrite (changed_within_outside _ _ _ _ _ vr Hloop).
      * unfold m2. rewrite lookup_insert_eq; done.
      * eapply layer_regions_later; [done| |right; exact Hvr]. lia.
Qed.

Lemma bitmap_covers_block b :
  0 <= blockSize b -> bitmapSize b = Z.quot (blockSize b + 63) 64 ->
  blockSize b <= 64 * bitmapSize b < blockSize b + 64.
Proof.
  intros Hb ->. rewrite Z.quot_div_nonneg by lia.
  pose proof (Z.div_mod (blockSize b + 63) 64 ltac:(lia)).
  pose proof (Z.mod_pos_bound (blockSize b + 63) 64 ltac:(lia)). lia.
Qed.

(** A successful [Update]: the slot found by [FindEmptySlot] is written for
    every layer and marked occupied; nothing else changes. *)
Lemma Update_ok m b contents data :
  builder_wf m b -> full_size b contents ->
  0 <= FindEmptySlot b < blockSize b ->
  exists m' bm',
    Update m b (spans contents) data
    = Some (OK, m', set_bitmap b bm',
            {| OffsetData.offset := FindEmptySlot b |})
    /\ builder_wf m' (set_bitmap b bm')
    /\ (forall k, slot_bit bm' k
                  = if bool_decide (k = FindEmptySlot b) then false
                    else slot_bit (bitmap b) k)
    /\ changed_within (regions b) (FindEmptySlot b * tensorNBytes b)
         (FindEmptySlot b * tensorNBytes b + tensorNBytes b) m m'
    /\ forall (l : nat) kv kr vr,
         contents !! l = Some kv ->
         keyStateTensorBuilderList b !! l = Some kr ->
         valueStateTensorBuilderList b !! l = Some vr ->
         slot_bytes m' (tensorNBytes b) kr (FindEmptySlot b) = Some kv.1
         /\ slot_bytes m' (tensorNBytes b) vr (FindEmptySlot b) = Some kv.2.
Proof.
  intros Hwf Hfull Hindex. pose proof Hwf as [ ].
  pose proof (bitmap_covers_block b ltac:(lia) wf_bitmapSize0) as Hcover.
  destruct (Update_loop_ok b contents (FindEmptySlot b) (Z.to_nat (layer b)) 0 m
              Hwf Hfull Hindex ltac:(lia) ltac:(lia)) as (m' & Hloop & Hcontent).
  destruct (bitmap_acquire (bitmap b) (FindEmptySlot b) wf_bitmap_words0
              ltac:(lia)) as (bm' & Hbm' & Hlen' & Hwords' & Hbits').
  pose proof (Update_loop_changed _ _ _ _ _ _ _ _ Hloop ltac:(lia)) as Hch.
  apply (changed_within_weaken _ (regions b)) in Hch;
    [|apply layer_regions_subseteq].
  exists m', bm'. split; [|split; [|split; [|split]]].
  - unfold Update.
    replace (0 <=? FindEmptySlot b) with true by (symmetry; apply Z.leb_le; lia).
    replace (FindEmptySlot b <? blockSize b) with true
      by (symmetry; apply Z.ltb_lt; lia).
    simpl. destruct Hfull as [Hlayers _].
    unfold spans. rewrite length_fmap, Hlayers, to_size_t_int, Z.eqb_refl by done.
    simpl. fold (spans contents). rewrite Hloop. simpl. rewrite Hbm'. done.
  - apply builder_wf_set_bitmap; [|done|done].
    eapply builder_wf_changed; eauto.
  - done.
  - done.
  - intros l kv kr vr. apply (Hcontent l). lia.
Qed.

(** ** The constructor of an empty builder *)

(** The tensor builders take the next fresh identifiers in turn: key and
    value of a layer are neighbours. *)
Lemma make_tensor_builders_spec c shape n keys values c' keys' values' :
  make_tensor_builders c shape n keys values = (c', keys', values') ->
  next_id c' = (next_id c + 2 * N.of_nat n)%N
  /\ objects c' = objects c
  /\ uninit c' = uninit c
  /\ remote c' = remote c
  /\ keys' = keys ++ ((fun j => next_id c + 2 * N.of_nat j)%N <$> seq 0 n)
  /\ values' = values
               ++ ((fun j => next_id c + 2 * N.of_nat j + 1)%N <$> seq 0 n)
  /\ forall r,
       memory c' !! r
       = if bool_decide (next_id c <= r < next_id c + 2 * N.of_nat n)%N
         then Some (uninit c r <$> seq 0 (Z.to_nat (shape.1 * shape.2)))
         else memory c !! r.
Proof.
  revert c keys values. induction n as [|n IH]; intros c keys values H.
  { cbn in H. inversion H; subst. rewrite !app_nil_r.
    repeat split; try done; try lia.
    intros r. rewrite bool_decide_eq_false_2 by lia. done. }
  cbn [make_tensor_builders] in H. unfold KVTensorBuilder_new in H.
  cbn [next_id memory objects uninit remote] in H.
  apply IH in H as (Hnext & Hobj & Hun & Hrem & Hkeys & Hvalues & Hmem).
  cbn [next_id memory objects uninit remote] in *.
  split; [lia|]. split; [done|]. split; [done|]. split; [done|].
  assert (forall (f g : nat -> N) (acc : list N) (x : N),
            x = g 0%nat -> (forall j, f j = g (S j)) ->
            (acc ++ [x]) ++ (f <$> seq 0 n) = acc ++ (g <$> seq 0 (S n)))
    as Hshift.
  { intros f g acc x -> Hfg. rewrite <- app_assoc. f_equal. cbn [seq fmap].
    simpl. f_equal. rewrite <- fmap_S_seq, <- list_fmap_compose.
    apply list_fmap_ext. intros i j _. apply Hfg. }
  split; [|split].
  - rewrite Hkeys. apply Hshift; intros; lia.
  - rewrite Hvalues. apply Hshift; intros; lia.
  - intros r. rewrite Hmem. repeat case_bool_decide; try lia; try done.
    destruct (decide (r = N.succ (next_id c))) as [->|Hne1].
    + by rewrite lookup_insert_eq.
    + rewrite lookup_insert_ne by done.
      assert (r = next_id c) as -> by lia. by rewrite lookup_insert_eq.
    + rewrite !lookup_insert_ne by lia. done.
Qed.

Lemma slot_bit_all_free n k :
  0 <= k < 64 * n -> slot_bit (bitmap_all_free n) k = true.
Proof.
  intros Hk. rewrite slot_bit_split by lia. unfold bitmap_all_free, word_at.
  assert (0 <= k / 64 < n) as Hq.
  { split; [apply Z.div_pos; lia|apply Z.div_lt_upper_bound; lia]. }
  replace (k / 64 <? 0) with false by (symmetry; apply Z.ltb_ge; lia).
  rewrite lookup_replicate_2 by lia. simpl.
  rewrite testbit_UINT64_MAX.
  pose proof (Z.mod_pos_bound k 64 ltac:(lia)).
  apply andb_true_iff. split; [apply Z.leb_le|apply Z.ltb_lt]; lia.
Qed.

Lemma fresh_regions_NoDup (next : N) n :
  NoDup (((fun j => next + 2 * N.of_nat j)%N <$> seq 0 n)
         ++ ((fun j => next + 2 * N.of_nat j + 1)%N <$> seq 0 n)).
Proof.
  apply NoDup_app. split; [|split].
  - apply NoDup_fmap_2; [intros i j; lia|apply NoDup_seq].
  - intros r Hk Hv. apply list_elem_of_fmap in Hk as (i & -> & _).
    apply list_elem_of_fmap in Hv as (j & Heq & _). lia.
  - apply NoDup_fmap_2; [intros i j; lia|apply NoDup_seq].
Qed.

(** A new builder is well formed, and every bit of its bitmap is set, the
    padding bits of the last word as well. *)
Lemma KVCacheBlockBuilder_new_spec c nbytes layers size c' b :
  0 <= size <= INT_MAX - 63 -> 0 <= nbytes <= INT_MAX ->
  0 <= layers <= INT_MAX -> size * nbytes <= INT_MAX ->
  KVCacheBlockBuilder_new c nbytes layers size = (c', b) ->
  builder_wf (memory c') b
  /\ blockSize b = size
  /\ tensorNBytes b = nbytes
  /\ layer b = layers
  /\ sealed b = false
  /\ (forall k, 0 <= k < 64 * bitmapSize b -> slot_bit (bitmap b) k = true)
  /\ Forall (fun r => next_id c <= r < next_id c')%N (regions b).
Proof.
  intros Hbs Htnb Hlayer Hprod. unfold KVCacheBlockBuilder_new.
  destruct (make_tensor_builders _ _ _ _ _) as [[c1 keys] values] eqn:Hmk.
  intros [= <- <-].
  apply make_tensor_builders_spec in Hmk
    as (Hnext & Hobj & Hun & _ & Hkeys & Hvalues & Hmem).
  simpl in Hkeys, Hvalues, Hmem.
  assert (0 <= Z.quot (size + 63) 64) as Hq
    by (rewrite Z.quot_div_nonneg by lia; apply Z.div_pos; lia).
  assert (Forall (fun r => next_id c <= r < next_id c1)%N (keys ++ values))
    as Hfresh.
  { subst keys values. rewrite Forall_app, !Forall_fmap.
    split; apply Forall_forall; intros j Hj; apply elem_of_seq in Hj;
      simpl; lia. }
  split; [split; simpl; try done|].
  - unfold bitmap_all_free. rewrite length_replicate. lia.
  - unfold bitmap_all_free. apply Forall_replicate. by compute.
  - subst keys. rewrite length_fmap, length_seq. lia.
  - subst values. rewrite length_fmap, length_seq. lia.
  - unfold regions. simpl. eapply Forall_impl; [exact Hfresh|].
    intros r Hr. simpl in Hr. rewrite Hmem.
    rewrite bool_decide_eq_true_2 by lia. simpl.
    by rewrite length_fmap, length_seq.
  - unfold regions. simpl. subst keys values. apply fresh_regions_NoDup.
  - simpl. repeat split; try done. intros k Hk. by apply slot_bit_all_free.
Qed.

(** ** Query *)

(** [Query] reads no bit of the bitmap. *)
Lemma Query_loop_set_bitmap b bm index n cl kvState :
  Query_loop (set_bitmap b bm) index n cl kvState
  = Query_loop b index n cl kvState.
Proof.
  revert cl kvState. induction n as [|n IH]; intros cl kvState; [done|].
  cbn [Query_loop]. simpl.
  destruct (kvState !! Z.to_nat cl); [|done]. simpl.
  destruct (keyStateTensorBuilderList b !! Z.to_nat cl); [|done]. simpl.
  destruct (valueStateTensorBuilderList b !! Z.to_nat cl); [|done]. simpl.
  destruct (int_mul index (tensorNBytes b)); [|done]. simpl. apply IH.
Qed.

Lemma Query_set_bitmap b bm index kvState :
  Query (set_bitmap b bm) index kvState = Query b index kvState.
Proof. unfold Query. simpl. by rewrite Query_loop_set_bitmap. Qed.

(** The loop of [Query] overwrites the entries of the layers from
    [currentLayer] on with the handles of the slot. *)
Lemma Query_loop_ok b index n cl kvState :
  0 <= tensorNBytes b <= INT_MAX ->
  INT_MIN <= index * tensorNBytes b <= INT_MAX ->
  Z.of_nat (length (keyStateTensorBuilderList b)) = layer b ->
  Z.of_nat (length (valueStateTensorBuilderList b)) = layer b ->
  layer b <= Z.of_nat (length kvState) ->
  0 <= cl -> cl + Z.of_nat n = layer b ->
  exists kvState',
    Query_loop b index n cl kvState = Some kvState'
    /\ length kvState' = length kvState
    /\ forall l : nat,
         kvState' !! l = if bool_decide (cl <= Z.of_nat l < layer b)
                         then slot_handles b index !! l
                         else kvState !! l.
Proof.
  intros Htnb Hoff Hkeys Hvalues. revert cl kvState.
  induction n as [|n IH]; intros cl kvState Hlen Hcl Hn.
  { exists kvState. split; [done|]. split; [done|]. intros l.
    rewrite bool_decide_eq_false_2 by lia. done. }
  cbn [Query_loop].
  destruct (lookup_lt_is_Some_2 kvState (Z.to_nat cl) ltac:(lia)) as [old Hold].
  destruct (lookup_lt_is_Some_2 (keyStateTensorBuilderList b) (Z.to_nat cl)
              ltac:(lia)) as [kr Hkr].
  destruct (lookup_lt_is_Some_2 (valueStateTensorBuilderList b) (Z.to_nat cl)
              ltac:(lia)) as [vr Hvr].
  rewrite Hold, Hkr, Hvr. simpl. rewrite int_mul_Some by done. simpl.
  rewrite to_size_t_int by done.
  destruct (IH (cl + 1)
              (<[Z.to_nat cl := (slot_handle b index kr,
                                 slot_handle b index vr)]> kvState))
    as (kvState' & Hloop & Hlen' & Hlook);
    [rewrite length_insert; lia|lia|lia|].
  exists kvState'. split; [exact Hloop|].
  split; [by rewrite Hlen', length_insert|].
  intros l. rewrite Hlook.
  destruct (decide (l = Z.to_nat cl)) as [->|Hne].
  - rewrite bool_decide_eq_false_2, bool_decide_eq_true_2 by lia.
    rewrite list_lookup_insert_eq by lia.
    unfold slot_handles. rewrite lookup_zip_with, Hkr, Hvr. done.
  - rewrite list_lookup_insert_ne by done.
    repeat case_bool_decide; try done; lia.
Qed.

Lemma Query_ok b index kvState :
  0 <= tensorNBytes b <= INT_MAX ->
  0 <= layer b <= INT_MAX ->
  blockSize b * tensorNBytes b <= INT_MAX ->
  Z.of_nat (length (keyStateTensorBuilderList b)) = layer b ->
  Z.of_nat (length (valueStateTensorBuilderList b)) = layer b ->
  0 <= index < blockSize b ->
  Z.of_nat (length kvState) = layer b ->
  Query b index kvState = Some (OK, slot_handles b index).
Proof.
  intros Htnb Hlayer Hprod Hkeys Hvalues Hindex Hlen. unfold Query.
  replace (0 <=? index) with true by (symmetry; apply Z.leb_le; lia).
  replace (index <? blockSize b) with true by (symmetry; apply Z.ltb_lt; lia).
  simpl. rewrite Hlen, to_int_small, Z.eqb_refl by done. simpl.
  destruct (Query_loop_ok b index (Z.to_nat (layer b)) 0 kvState)
    as (kvState' & -> & Hlen' & Hlook); try done; try lia.
  { unfold INT_MIN. nia. }
  simpl. do 2 f_equal. apply list_eq. intros l. rewrite Hlook.
  case_bool_decide; [done|].
  rewrite !lookup_ge_None_2; [done| |lia].
  unfold slot_handles. rewrite length_zip_with. lia.
Qed.

Lemma to_int_ge x y : 0 <= x -> 0 <= y <= INT_MAX -> to_int x = y -> y <= x.
Proof.
  unfold to_int, INT_MAX. intros Hx Hy Heq.
  pose proof (Z.mod_pos_bound (x + 2 ^ 31) (2 ^ 32) ltac:(lia)) as Hmod.
  pose proof (Z.div_mod (x + 2 ^ 31) (2 ^ 32) ltac:(lia)) as Hdm.
  assert (0 <= (x + 2 ^ 31) / 2 ^ 32) by (apply Z.div_pos; lia).
  lia.
Qed.

Lemma deref_slot_handle m b index region :
  deref m (slot_handle b index region)
  = slot_bytes m (tensorNBytes b) region index.
Proof. done. Qed.

Lemma length_query_buffer n : 0 <= n -> Z.of_nat (length (query_buffer n)) = n.
Proof. intros Hn. unfold query_buffer. rewrite length_replicate. lia. Qed.

(** ** Filling a builder slot by slot *)

Lemma filled_to_FindEmptySlot m b k :
  builder_wf m b -> filled_to b k -> 0 <= k < blockSize b ->
  FindEmptySlot b = k.
Proof.
  intros Hwf Hfill Hk. pose proof Hwf as [ ].
  pose proof (bitmap_covers_block b ltac:(lia) wf_bitmapSize0) as Hcover.
  assert (slot_bit (bitmap b) k = true) as Hbit
    by (rewrite Hfill, bool_decide_eq_true_2; lia).
  destruct (FindEmptySlot_spec b wf_bitmap_words0 wf_bitmap_length0)
    as [[_ Hnone]|(Hr & Hset & Hlow)].
  - rewrite Hnone in Hbit. done.
  - destruct (Z_lt_le_dec k (FindEmptySlot b)) as [Hlt|Hge].
    { rewrite Hlow in Hbit by done. done. }
    rewrite Hfill in Hset by done. apply bool_decide_eq_true_1 in Hset. lia.
Qed.

Lemma filled_to_no_slot m b k :
  builder_wf m b -> filled_to b k -> blockSize b <= k ->
  ~ (0 <= FindEmptySlot b < blockSize b).
Proof.
  intros Hwf Hfill Hk Hr. pose proof Hwf as [ ].
  pose proof (bitmap_covers_block b ltac:(lia) wf_bitmapSize0) as Hcover.
  destruct (FindEmptySlot_spec b wf_bitmap_words0 wf_bitmap_length0)
    as [[Heq _]|(_ & Hset & _)]; [lia|].
  rewrite Hfill in Hset by lia. apply bool_decide_eq_true_1 in Hset. lia.
Qed.

Lemma set_bitmap_set_bitmap b bm1 bm2 :
  set_bitmap (set_bitmap b bm1) bm2 = set_bitmap b bm2.
Proof. done. Qed.

(** [n] updates with full-size spans on a builder filled to [k], with room
    for them: all succeed, report the slots [k, k+1, ...] in turn, keep what
    the slots below [k] hold and leave each span in its slot. *)
Lemma Update_all_fill m b inputs k data :
  builder_wf m b -> filled_to b k -> 0 <= k ->
  k + Z.of_nat (length inputs) <= blockSize b ->
  Forall (full_size b) inputs ->
  exists m' bm',
    Update_all m b (spans <$> inputs) data
    = Some ((fun j => (OK, k + Z.of_nat j)) <$> seq 0 (length inputs),
            m', set_bitmap b bm')
    /\ builder_wf m' (set_bitmap b bm')
    /\ filled_to (set_bitmap b bm') (k + Z.of_nat (length inputs))
    /\ (forall j r, 0 <= j < k ->
          slot_bytes m' (tensorNBytes b) r j
          = slot_bytes m (tensorNBytes b) r j)
    /\ (forall r, r ∉ regions b -> m' !! r = m !! r)
    /\ forall (i : nat) contents (l : nat) kv kr vr,
         inputs !! i = Some contents ->
         contents !! l = Some kv ->
         keyStateTensorBuilderList b !! l = Some kr ->
         valueStateTensorBuilderList b !! l = Some vr ->
         slot_bytes m' (tensorNBytes b) kr (k + Z.of_nat i) = Some kv.1
         /\ slot_bytes m' (tensorNBytes b) vr (k + Z.of_nat i) = Some kv.2.
Proof.
  revert m b k data.
  induction inputs as [|contents rest IH]; intros m b k data Hwf Hfill Hk Hroom
    Hfull.
  { exists m, (bitmap b). simpl. rewrite Z.add_0_r.
    assert (set_bitmap b (bitmap b) = b) as -> by (by destruct b).
    split; [done|]. split; [done|]. split; [done|]. split; [done|].
    split; [done|]. intros i contents l kv kr vr Hi. done. }
  cbn [length] in Hroom. apply Forall_cons in Hfull as [Hfull Hrest].
  pose proof (filled_to_FindEmptySlot m b k Hwf Hfill ltac:(lia)) as Hfind.
  destruct (Update_ok m b contents data Hwf Hfull ltac:(lia))
    as (m1 & bm1 & Hupd & Hwf1 & Hbits1 & Hch1 & Hcontent1).
  rewrite Hfind in Hupd, Hbits1, Hch1, Hcontent1.
  assert (filled_to (set_bitmap b bm1) (k + 1)) as Hfill1.
  { intros j Hj. simpl in *. rewrite Hbits1.
    case_bool_decide; [by rewrite bool_decide_eq_false_2 by lia|].
    rewrite Hfill by done. apply bool_decide_ext. lia. }
  destruct (IH m1 (set_bitmap b bm1) (k + 1)
              {| OffsetData.offset := k |} Hwf1 Hfill1 ltac:(lia)
              ltac:(simpl; lia) Hrest)
    as (m' & bm' & Hall & Hwf' & Hfill' & Hlow' & Hout' & Hcontent').
  rewrite set_bitmap_set_bitmap in Hall, Hwf', Hfill'. simpl in Hlow', Hcontent'.
  exists m', bm'. split; [|split; [|split; [|split; [|split]]]].
  - cbn [fmap list_fmap Update_all]. rewrite Hupd. simpl.
    change (list_fmap _ _ spans rest) with (spans <$> rest). rewrite Hall.
    simpl. rewrite Z.add_0_r. do 4 f_equal.
    change (list_fmap nat (Status * Z)%type ?f ?l) with (f <$> l).
    rewrite <- fmap_S_seq, <- list_fmap_compose.
    apply list_fmap_ext. intros i j _. simpl. f_equal. lia.
  - done.
  - cbn [length]. replace (k + Z.of_nat (S (length rest)))
      with (k + 1 + Z.of_nat (length rest)) by lia. done.
  - intros j r Hj. rewrite Hlow' by lia.
    eapply changed_within_slot_bytes; [exact Hch1|lia].
  - intros r Hr. rewrite Hout' by done.
    eapply changed_within_outside; eauto.
  - intros i contents' l kv kr vr Hi Hkv Hkr Hvr.
    destruct i as [|i].
    + simpl in Hi. inversion Hi; subst contents'. rewrite Z.add_0_r.
      rewrite !Hlow' by lia. eapply Hcontent1; eauto.
    + simpl in Hi.
      replace (k + Z.of_nat (S i)) with (k + 1 + Z.of_nat i) by lia.
      eapply Hcontent'; eauto.
Qed.

(** ** Counting the occupied slots *)

Lemma filter_Forall_all {A} (P : A -> Prop) `{forall x, Decision (P x)} l :
  Forall P l -> filter P l = l.
Proof.
  induction 1 as [|x l Hx _ IH]; [done|].
  by rewrite filter_cons_True, IH.
Qed.

Lemma filter_Forall_none {A} (P : A -> Prop) `{forall x, Decision (P x)} l :
  Forall (fun x => ~ P x) l -> filter P l = [].
Proof.
  induction 1 as [|x l Hx _ IH]; [done|].
  by rewrite filter_cons_False.
Qed.

Lemma occupied_filled m b k :
  builder_wf m b -> filled_to b k -> 0 <= k <= blockSize b -> occupied b = k.
Proof.
  intros Hwf Hfill Hk. pose proof Hwf as [ ].
  pose proof (bitmap_covers_block b ltac:(lia) wf_bitmapSize0) as Hcover.
  unfold occupied.
  replace (blockSize b) with (k + (blockSize b - k)) at 1 by lia.
  rewrite seqZ_app, filter_app by lia.
  rewrite filter_Forall_all, filter_Forall_none.
  - rewrite app_nil_r, length_seqZ. lia.
  - apply Forall_seqZ. intros j Hj. rewrite Hfill by lia.
    rewrite bool_decide_eq_true_2 by lia. done.
  - apply Forall_seqZ. intros j Hj. rewrite Hfill by lia.
    rewrite bool_decide_eq_false_2 by lia. done.
Qed.

(** A builder equal to the state [example_full] computes. *)
Lemma example_full_eq : example_full = Some (example_memory, example_builder).
Proof. by vm_compute. Qed.

(** [builder_wf] of a concrete memory and builder, field by field. *)
Ltac solve_wf :=
  split;
  [ by vm_compute | by vm_compute | by vm_compute | by vm_compute
  | by vm_compute | by vm_compute
  | repeat constructor; by vm_compute
  | by vm_compute | by vm_compute
  | repeat constructor; by vm_compute
  | apply (bool_decide_unpack _); by vm_compute ].

Lemma example_builder_wf : builder_wf example_memory example_builder.
Proof. solve_wf. Qed.

(** * The claims *)


(** ** C2: the range of [FindEmptySlot] *)

(** C2, as stated, fails: a new builder of three slots keeps the 61 padding
    bits of its only word set, and after three updates [FindEmptySlot]
    returns 3, which is [blockSize]. *)
Lemma C2_counterexample :
  (st ← example_full; Some (FindEmptySlot st.2, blockSize st.2))
  = Some (3, 3).
Proof. by vm_compute. Qed.

(** C2 (amended). On a builder whose bitmap holds [bitmapSize] 64-bit
    words, [FindEmptySlot] returns [-1] exactly when no bit of the bitmap is
    set; otherwise it returns the lowest set bit of the whole bitmap, an
    index in [[0, 64 * bitmapSize)] whose bit is set and below which every
    bit is clear. Nothing confines this index to [[0, blockSize)]: when the
    bits below [k] are clear and the others set, the result is [k], also
    for [k = blockSize] where [blockSize] is not a multiple of 64. Whenever
    the result is [blockSize] or more, [Update] rejects it with its range
    check, leaving memory, builder and out-parameter as they were. *)
Theorem FindEmptySlot_lowest_set_bit b :
  Forall is_uint64 (bitmap b) ->
  Z.of_nat (length (bitmap b)) = bitmapSize b ->
  (FindEmptySlot b = -1 <-> forall k, slot_bit (bitmap b) k = false)
  /\ (FindEmptySlot b ≠ -1 ->
      0 <= FindEmptySlot b < 64 * bitmapSize b
      /\ slot_bit (bitmap b) (FindEmptySlot b) = true
      /\ forall k, k < FindEmptySlot b -> slot_bit (bitmap b) k = false)
  /\ (forall k, 0 <= k < 64 * bitmapSize b -> filled_to b k ->
        FindEmptySlot b = k)
  /\ (forall m kvState data,
        blockSize b <= FindEmptySlot b ->
        Update m b kvState data
        = Some (index_out_of_range (FindEmptySlot b), m, b, data)).
Proof.
  intros Hwords Hlen.
  pose proof (FindEmptySlot_spec b Hwords Hlen) as Hspec.
  split; [|split; [|split]].
  - destruct Hspec as [[Heq Hnone]|(Hr & Hset & Hlow)].
    + split; [intros _; exact Hnone|intros _; exact Heq].
    + split; [lia|]. intros Hnone. rewrite Hnone in Hset. discriminate Hset.
  - intros Hne. destruct Hspec as [[Heq _]|Hfound]; [contradiction|exact Hfound].
  - intros k Hk Hfill. destruct Hspec as [[_ Hnone]|(Hr & Hset & Hlow)].
    + specialize (Hnone k).
      rewrite (Hfill k Hk), bool_decide_eq_true_2 in Hnone by lia.
      discriminate Hnone.
    + rewrite (Hfill _ Hr) in Hset. apply bool_decide_eq_true_1 in Hset.
      destruct (Z_lt_le_dec k (FindEmptySlot b)) as [Hlt|Hge]; [|lia].
      specialize (Hlow k Hlt).
      rewrite (Hfill k Hk), bool_decide_eq_true_2 in Hlow by lia.
      discriminate Hlow.
  - intros m kvState data Hge. unfold Update.
    replace (FindEmptySlot b <? blockSize b) with false
      by (symmetry; apply Z.ltb_ge; lia).
    by rewrite andb_false_r.
Qed.

Lemma FindEmptySlot_lowest_set_bit_witness :
  Forall is_uint64 (bitmap example_builder)
  /\ Z.of_nat (length (bitmap example_builder)) = bitmapSize example_builder
  /\ (FindEmptySlot example_builder ≠ -1 ->
      0 <= FindEmptySlot example_builder < 64 * bitmapSize example_builder
      /\ slot_bit (bitmap example_builder) (FindEmptySlot example_builder)
         = true
      /\ forall k, k < FindEmptySlot example_builder ->
                   slot_bit (bitmap example_builder) k = false)
  /\ (forall m kvState data,
        blockSize example_builder <= FindEmptySlot example_builder ->
        Update m example_builder kvState data
        = Some (index_out_of_range (FindEmptySlot example_builder), m,
                example_builder, data)).
Proof.
  assert (Forall is_uint64 (bitmap example_builder)) as Hwords
    by (repeat constructor; by vm_compute).
  assert (Z.of_nat (length (bitmap example_builder))
          = bitmapSize example_builder) as Hlen by reflexivity.
  split; [exact Hwords|]. split; [exact Hlen|].
  destruct (FindEmptySlot_lowest_set_bit example_builder Hwords Hlen)
    as (_ & Hfound & _ & Hupdate).
  split; [exact Hfound|exact Hupdate].
Defined.

(** ** C3: [IsFull] and [FindEmptySlot] *)

(** C3, as stated, fails in its second half: on the full builder of three
    slots [IsFull] answers [true] while [FindEmptySlot] returns 3 and not the
    "no slot" result [-1]: the padding bits count as free for it. *)
Lemma C3_counterexample :
  (st ← example_full; Some (IsFull st.2, FindEmptySlot st.2))
  = Some (true, 3).
Proof. by vm_compute. Qed.

(** C3 (amended). [IsFull] answers [true] exactly when no bit is set among
    the first [blockSize] positions, and this is equivalent to the result of
    [FindEmptySlot] lying outside [[0, blockSize)], the test [Update] applies
    to it: the result is then [-1] or the index of a padding bit. *)
Theorem IsFull_iff b :
  Forall is_uint64 (bitmap b) ->
  Z.of_nat (length (bitmap b)) = bitmapSize b ->
  (IsFull b = true
   <-> forall k, 0 <= k < blockSize b -> slot_bit (bitmap b) k = false)
  /\ (IsFull b = true <-> ~ (0 <= FindEmptySlot b < blockSize b)).
Proof.
  intros Hwords Hlen. pose proof (IsFull_spec b Hwords Hlen) as Hfull.
  split; [exact Hfull|].
  destruct (FindEmptySlot_spec b Hwords Hlen)
    as [[Heq Hnone]|(Hr & Hset & Hlow)].
  - split; [lia|]. intros _. apply Hfull. auto.
  - split.
    + intros Ht Hrange. rewrite (proj1 Hfull Ht) in Hset by done. done.
    + intros Hout. apply Hfull. intros k Hk. apply Hlow. lia.
Qed.

Lemma IsFull_iff_witness :
  Forall is_uint64 (bitmap example_builder)
  /\ Z.of_nat (length (bitmap example_builder)) = bitmapSize example_builder
  /\ (IsFull example_builder = true
      <-> ~ (0 <= FindEmptySlot example_builder < blockSize example_builder)).
Proof.
  assert (Forall is_uint64 (bitmap example_builder)) as Hwords
    by (repeat constructor; by vm_compute).
  assert (Z.of_nat (length (bitmap example_builder))
          = bitmapSize example_builder) as Hlen by reflexivity.
  split; [exact Hwords|]. split; [exact Hlen|].
  exact (proj2 (IsFull_iff example_builder Hwords Hlen)).
Defined.

(** ** C10: [Query] and the bitmap *)

(** C10. [Query] reads no bit of the bitmap (its answer is the same under
    any bitmap, so also for a slot marked free), and the builder is no part
    of what it changes. For an index in [[0, blockSize)] and a buffer of
    [layer] entries it returns [OK] and, for every layer, the two handles of
    [tensorNBytes] bytes at byte offset [index * tensorNBytes]. It always
    returns, and a status other than [OK] means an index out of range or a
    buffer whose size is not [layer]. *)
Theorem Query_never_reads_bitmap m b index kvState :
  builder_wf m b ->
  (forall bm, Query (set_bitmap b bm) index kvState = Query b index kvState)
  /\ (0 <= index < blockSize b -> Z.of_nat (length kvState) = layer b ->
      Query b index kvState = Some (OK, slot_handles b index)
      /\ Z.of_nat (length (slot_handles b index)) = layer b
      /\ forall (l : nat) kr vr,
           keyStateTensorBuilderList b !! l = Some kr ->
           valueStateTensorBuilderList b !! l = Some vr ->
           slot_handles b index !! l
           = Some ({| LLMKV.data := tensor_at kr (index * tensorNBytes b);
                      LLMKV.length := tensorNBytes b |},
                   {| LLMKV.data := tensor_at vr (index * tensorNBytes b);
                      LLMKV.length := tensorNBytes b |}))
  /\ (exists status kvState', Query b index kvState = Some (status, kvState'))
  /\ (forall status kvState',
        Query b index kvState = Some (status, kvState') -> status ≠ OK ->
        (status = index_out_of_range index /\ ~ (0 <= index < blockSize b))
        \/ (status = kvState_size_mismatch
            /\ Z.of_nat (length kvState) ≠ layer b)).
Proof.
  intros Hwf. pose proof Hwf as [ ].
  split; [intros bm; apply Query_set_bitmap|].
  split.
  { intros Hindex Hlen. split; [by apply Query_ok|]. split.
    - unfold slot_handles. rewrite length_zip_with. lia.
    - intros l kr vr Hkr Hvr. unfold slot_handles.
      rewrite lookup_zip_with, Hkr, Hvr. done. }
  assert (Decision (0 <= index < blockSize b)) as [Hin|Hout] by apply _.
  - destruct (decide (Z.of_nat (length kvState) = layer b)) as [Hlen|Hlen].
    + rewrite Query_ok by done. split; [by eauto|].
      intros status kvState' [= <- <-]. done.
    + unfold Query.
      replace (0 <=? index) with true by (symmetry; apply Z.leb_le; lia).
      replace (index <? blockSize b) with true
        by (symmetry; apply Z.ltb_lt; lia).
      simpl.
      destruct (to_int (Z.of_nat (length kvState)) =? layer b) eqn:Heq; simpl.
      * apply Z.eqb_eq in Heq.
        apply to_int_ge in Heq; [|lia|lia].
        destruct (Query_loop_ok b index (Z.to_nat (layer b)) 0 kvState)
          as (kvState1 & -> & _); try done; try lia.
        { unfold INT_MIN. nia. }
        simpl. split; [by eauto|]. intros status kvState' [= <- <-]. done.
      * split; [by eauto|]. intros status kvState' [= <- <-] _. auto.
  - unfold Query.
    replace ((0 <=? index) && (index <? blockSize b)) with false.
    + simpl. split; [by eauto|]. intros status kvState' [= <- <-] _. auto.
    + symmetry. apply andb_false_iff.
      destruct (Z_lt_le_dec index 0); [left; apply Z.leb_gt; lia|].
      right. apply Z.ltb_ge. lia.
Qed.

Lemma Query_never_reads_bitmap_witness :
  builder_wf example_memory example_builder
  /\ Query example_builder 1 (query_buffer 1)
     = Some (OK, slot_handles example_builder 1).
Proof.
  assert (builder_wf example_memory example_builder) as Hwf by solve_wf.
  split; [exact Hwf|].
  apply (Query_never_reads_bitmap example_memory example_builder 1
           (query_buffer 1) Hwf); [by vm_compute|reflexivity].
Defined.

(** ** C6: updates fill the slots in ascending order and [Query] reads them
    back *)

(** C6. On a new builder, [N <= blockSize] updates with full-size spans all
    succeed and report the slots [0, 1, ..., N-1] in this order; afterwards
    [Query] on each of these slots returns [OK] and handles behind which, for
    every layer, lie the key and value bytes of the corresponding update. *)
Theorem Update_Query_round_trip c nbytes layers size c0 b0 inputs data :
  0 <= size <= INT_MAX - 63 -> 0 <= nbytes <= INT_MAX ->
  0 <= layers <= INT_MAX -> size * nbytes <= INT_MAX ->
  KVCacheBlockBuilder_new c nbytes layers size = (c0, b0) ->
  Forall (full_size b0) inputs ->
  Z.of_nat (length inputs) <= size ->
  exists m' b',
    Update_all (memory c0) b0 (spans <$> inputs) data
    = Some ((fun j => (OK, Z.of_nat j)) <$> seq 0 (length inputs), m', b')
    /\ forall (i : nat) contents,
         inputs !! i = Some contents ->
         Query b' (Z.of_nat i) (query_buffer (layer b'))
         = Some (OK, slot_handles b' (Z.of_nat i))
         /\ length (slot_handles b' (Z.of_nat i)) = length contents
         /\ forall (l : nat) kv h,
              contents !! l = Some kv ->
              slot_handles b' (Z.of_nat i) !! l = Some h ->
              deref m' h.1 = Some kv.1 /\ deref m' h.2 = Some kv.2.
Proof.
  intros Hsize Hnbytes Hlayers Hprod Hnew Hfull Hlen.
  destruct (KVCacheBlockBuilder_new_spec _ _ _ _ _ _ Hsize Hnbytes Hlayers
              Hprod Hnew) as (Hwf & Hbs & Htnb & Hlay & _ & Hfree & _).
  assert (filled_to b0 0) as Hfill.
  { intros j Hj. rewrite Hfree, bool_decide_eq_true_2 by lia. reflexivity. }
  destruct (Update_all_fill (memory c0) b0 inputs 0 data Hwf Hfill ltac:(lia)
              ltac:(lia) Hfull)
    as (m' & bm' & Hall & Hwf' & _ & _ & _ & Hcontent).
  exists m', (set_bitmap b0 bm'). split.
  { rewrite Hall. do 3 f_equal. }
  intros i contents Hi.
  pose proof (lookup_lt_Some _ _ _ Hi) as Hilt.
  pose proof (Forall_lookup_1 _ _ _ _ Hfull Hi) as [Hclen _].
  pose proof Hwf' as [ ]. simpl in *.
  split; [|split].
  - rewrite Query_set_bitmap.
    change (slot_handles (set_bitmap b0 bm') (Z.of_nat i))
      with (slot_handles b0 (Z.of_nat i)).
    apply Query_ok; try assumption; try lia.
    apply length_query_buffer. lia.
  - unfold slot_handles. simpl. rewrite length_zip_with. lia.
  - intros l kv h Hkv Hh. unfold slot_handles in Hh. simpl in Hh.
    apply lookup_zip_with_Some in Hh as (kr & vr & -> & Hkr & Hvr).
    simpl. rewrite !deref_slot_handle. simpl.
    apply (Hcontent i contents l kv kr vr); assumption.
Qed.

Lemma Update_Query_round_trip_witness :
  let cb := KVCacheBlockBuilder_new example_client 2 1 3 in
  Forall (full_size cb.2) example_inputs
  /\ exists m' b',
       Update_all (memory cb.1) cb.2 (spans <$> example_inputs)
         {| OffsetData.offset := 0 |}
       = Some ([(OK, 0); (OK, 1); (OK, 2)], m', b')
       /\ forall (i : nat) contents,
            example_inputs !! i = Some contents ->
            Query b' (Z.of_nat i) (query_buffer (layer b'))
            = Some (OK, slot_handles b' (Z.of_nat i))
            /\ length (slot_handles b' (Z.of_nat i)) = length contents
            /\ forall (l : nat) kv h,
                 contents !! l = Some kv ->
                 slot_handles b' (Z.of_nat i) !! l = Some h ->
                 deref m' h.1 = Some kv.1 /\ deref m' h.2 = Some kv.2.
Proof.
  intros cb.
  assert (Forall (full_size cb.2) example_inputs) as Hfull
    by (repeat constructor; by vm_compute).
  split; [exact Hfull|].
  apply (Update_Query_round_trip example_client 2 1 3 cb.1 cb.2 example_inputs
           {| OffsetData.offset := 0 |});
    [by vm_compute|by vm_compute|by vm_compute|by vm_compute|reflexivity
    |exact Hfull|by vm_compute].
Defined.

(** ** C8: exhaustion *)

(** C8. On a new builder of capacity [blockSize], whether a multiple of 64
    or not, [blockSize] updates with full-size spans succeed, the next one
    returns the error of [Update]'s range check on the slot index (the "no
    free slot" result) and changes nothing, and the number of occupied
    slots is [blockSize]. *)
Theorem Update_exhaustion c nbytes layers size c0 b0 inputs last data data' :
  0 <= size <= INT_MAX - 63 -> 0 <= nbytes <= INT_MAX ->
  0 <= layers <= INT_MAX -> size * nbytes <= INT_MAX ->
  KVCacheBlockBuilder_new c nbytes layers size = (c0, b0) ->
  Forall (full_size b0) inputs ->
  Z.of_nat (length inputs) = size ->
  full_size b0 last ->
  exists m' b',
    Update_all (memory c0) b0 (spans <$> inputs) data
    = Some ((fun j => (OK, Z.of_nat j)) <$> seq 0 (length inputs), m', b')
    /\ Update m' b' (spans last) data'
       = Some (index_out_of_range (FindEmptySlot b'), m', b', data')
    /\ ok (index_out_of_range (FindEmptySlot b')) = false
    /\ occupied b' = blockSize b'
    /\ blockSize b' = size.
Proof.
  intros Hsize Hnbytes Hlayers Hprod Hnew Hfull Hlen Hlast.
  destruct (KVCacheBlockBuilder_new_spec _ _ _ _ _ _ Hsize Hnbytes Hlayers
              Hprod Hnew) as (Hwf & Hbs & Htnb & Hlay & _ & Hfree & _).
  assert (filled_to b0 0) as Hfill.
  { intros j Hj. rewrite Hfree, bool_decide_eq_true_2 by lia. reflexivity. }
  destruct (Update_all_fill (memory c0) b0 inputs 0 data Hwf Hfill ltac:(lia)
              ltac:(lia) Hfull)
    as (m' & bm' & Hall & Hwf' & Hfill' & _).
  rewrite Z.add_0_l in Hfill'.
  exists m', (set_bitmap b0 bm'). split; [|split; [|split; [|split]]].
  - rewrite Hall. do 3 f_equal.
  - pose proof (filled_to_no_slot _ _ _ Hwf' Hfill' ltac:(simpl; lia)) as Hno.
    unfold Update.
    replace ((0 <=? FindEmptySlot (set_bitmap b0 bm'))
             && (FindEmptySlot (set_bitmap b0 bm')
                 <? blockSize (set_bitmap b0 bm'))) with false; [done|].
    symmetry. apply andb_false_iff.
    destruct (Z_lt_le_dec (FindEmptySlot (set_bitmap b0 bm')) 0);
      [left; apply Z.leb_gt; lia|].
    right. apply Z.ltb_ge. lia.
  - done.
  - eapply occupied_filled; [exact Hwf'| |simpl; lia].
    simpl. replace (blockSize b0) with (Z.of_nat (length inputs)) by lia.
    exact Hfill'.
  - exact Hbs.
Qed.

Lemma Update_exhaustion_witness :
  let cb := KVCacheBlockBuilder_new example_client 2 1 3 in
  Forall (full_size cb.2) example_inputs
  /\ full_size cb.2 (example_contents Byte.x07 Byte.x08)
  /\ exists m' b',
       Update_all (memory cb.1) cb.2 (spans <$> example_inputs)
         {| OffsetData.offset := 0 |}
       = Some ([(OK, 0); (OK, 1); (OK, 2)], m', b')
       /\ Update m' b' (spans (example_contents Byte.x07 Byte.x08))
            {| OffsetData.offset := 2 |}
          = Some (index_out_of_range (FindEmptySlot b'), m', b',
                  {| OffsetData.offset := 2 |})
       /\ ok (index_out_of_range (FindEmptySlot b')) = false
       /\ occupied b' = blockSize b'
       /\ blockSize b' = 3.
Proof.
  intros cb.
  assert (Forall (full_size cb.2) example_inputs) as Hfull
    by (repeat constructor; by vm_compute).
  assert (full_size cb.2 (example_contents Byte.x07 Byte.x08)) as Hlast
    by (repeat constructor; by vm_compute).
  split; [exact Hfull|]. split; [exact Hlast|].
  apply (Update_exhaustion example_client 2 1 3 cb.1 cb.2 example_inputs
           (example_contents Byte.x07 Byte.x08)
           {| OffsetData.offset := 0 |} {| OffsetData.offset := 2 |});
    [by vm_compute|by vm_compute|by vm_compute|by vm_compute|reflexivity
    |exact Hfull|by vm_compute|exact Hlast].
Defined.

(** ** C4: what an error of [Update] leaves behind *)

Lemma Update_loop_status b kvState index n cl m status m' :
  Update_loop b kvState index n cl m = Some (status, m') ->
  status = OK \/ status = length_mismatch.
Proof.
  revert cl m. induction n as [|n IH]; intros cl m H; cbn [Update_loop] in H.
  { inversion H. by left. }
  destruct (kvState !! Z.to_nat cl) as [[keyState valueState]|]; [|done].
  simpl in H. destruct (negb _); [inversion H; by right|].
  destruct (keyStateTensorBuilderList b !! Z.to_nat cl); [|done]. simpl in H.
  destruct (valueStateTensorBuilderList b !! Z.to_nat cl); [|done]. simpl in H.
  destruct (int_mul index (tensorNBytes b)); [|done]. simpl in H.
  destruct (concurrent_memcpy m _ _ _ _); [|done]. simpl in H.
  destruct (concurrent_memcpy _ _ _ _ _); [|done]. simpl in H.
  by eapply IH.
Qed.

(** C4, as stated, fails: the lengths are checked layer by layer inside the
    copy loop. With two layers and a short key span in the second, [Update]
    returns the length error after it has copied the first layer: the key
    region of layer 0, all zero before, holds the first key span in slot 0. *)
Lemma C4_counterexample :
  let '(c, b) := KVCacheBlockBuilder_new example_client 2 2 3 in
  memory c !! 0%N = Some (replicate 6 Byte.x00)
  /\ (r ← Update (memory c) b example_short_input {| OffsetData.offset := 0 |};
      Some (r.1.1.1, r.1.1.2 !! 0%N))
     = Some (length_mismatch,
             Some [Byte.x01; Byte.x01; Byte.x00; Byte.x00; Byte.x00; Byte.x00]).
Proof. by vm_compute. Qed.

(** C4 (amended). When [Update] returns an error, the builder (its bitmap
    with it) and the out-parameter are as before: no slot is allocated. After
    the error of the range check (no free slot) or of the layer count, memory
    is as before too. After a length error, memory differs from before at
    most in the bytes of the free slot [FindEmptySlot] had chosen, in the
    builder's own regions: every other slot and every other region is
    unchanged. *)
Theorem Update_error_effect m b kvState data status m' b' data' :
  Update m b kvState data = Some (status, m', b', data') ->
  ok status = false ->
  b' = b /\ data' = data
  /\ (status = index_out_of_range (FindEmptySlot b)
      \/ status = kvState_size_mismatch
      \/ status = length_mismatch)
  /\ (status ≠ length_mismatch -> m' = m)
  /\ (forall r j, j ≠ FindEmptySlot b ->
        slot_bytes m' (tensorNBytes b) r j = slot_bytes m (tensorNBytes b) r j)
  /\ (forall r, r ∉ regions b -> m' !! r = m !! r).
Proof.
  unfold Update. intros H Hstatus.
  destruct (negb ((0 <=? FindEmptySlot b) && (FindEmptySlot b <? blockSize b))).
  { inversion H; subst. repeat split; auto. }
  destruct (negb (Z.of_nat (length kvState) =? to_size_t (layer b))).
  { inversion H; subst. repeat split; auto. }
  destruct (Update_loop b kvState (FindEmptySlot b) (Z.to_nat (layer b)) 0 m)
    as [[status1 m1]|] eqn:Hloop; [|done].
  simpl in H. destruct (ok status1) eqn:Hok.
  { destruct (bitmap_apply _ _ _); [|done]. simpl in H.
    inversion H; subst. done. }
  inversion H; subst.
  destruct (Update_loop_status _ _ _ _ _ _ _ _ Hloop) as [->| ->]; [done|].
  pose proof (Update_loop_changed _ _ _ _ _ _ _ _ Hloop ltac:(lia)) as Hch.
  apply (changed_within_weaken _ (regions b')) in Hch;
    [|apply layer_regions_subseteq].
  repeat split; auto.
  - done.
  - intros r j Hj. by eapply changed_within_slot_bytes.
  - intros r Hr. by eapply changed_within_outside.
Qed.

Lemma Update_error_effect_witness :
  let cb := KVCacheBlockBuilder_new example_client 2 2 3 in
  exists m',
    Update (memory cb.1) cb.2 example_short_input {| OffsetData.offset := 0 |}
    = Some (length_mismatch, m', cb.2, {| OffsetData.offset := 0 |})
    /\ ok length_mismatch = false
    /\ forall r j, j ≠ FindEmptySlot cb.2 ->
         slot_bytes m' (tensorNBytes cb.2) r j
         = slot_bytes (memory cb.1) (tensorNBytes cb.2) r j.
Proof.
  intros cb. eexists. split; [by vm_compute|]. split; [reflexivity|].
  refine (proj1 (proj2 (proj2 (proj2 (proj2
    (Update_error_effect (memory cb.1) cb.2 example_short_input
       {| OffsetData.offset := 0 |} length_mismatch _ cb.2
       {| OffsetData.offset := 0 |} _ _)))))); [by vm_compute|reflexivity].
Defined.

(** ** C9: the sealed flag *)

Lemma Update_loop_set_sealed b flag kvState index n cl m :
  Update_loop (set_sealed b flag) kvState index n cl m
  = Update_loop b kvState index n cl m.
Proof.
  revert cl m. induction n as [|n IH]; intros cl m; [done|].
  cbn [Update_loop]. simpl.
  destruct (kvState !! Z.to_nat cl) as [[keyState valueState]|]; [|done].
  simpl. destruct (negb _); [done|].
  destruct (keyStateTensorBuilderList b !! Z.to_nat cl); [|done]. simpl.
  destruct (valueStateTensorBuilderList b !! Z.to_nat cl); [|done]. simpl.
  destruct (int_mul index (tensorNBytes b)); [|done]. simpl.
  destruct (concurrent_memcpy m _ _ _ _); [|done]. simpl.
  destruct (concurrent_memcpy _ _ _ _ _); [|done]. simpl.
  apply IH.
Qed.

Lemma Split_loop_set_sealed this child flag1 flag2 index childIndex n cl m :
  Split_loop (set_sealed this flag1) (set_sealed child flag2) index childIndex
    n cl m
  = Split_loop this child index childIndex n cl m.
Proof.
  revert cl m. induction n as [|n IH]; intros cl m; [done|].
  cbn [Split_loop]. simpl.
  destruct (keyStateTensorBuilderList this !! Z.to_nat cl); [|done]. simpl.
  destruct (valueStateTensorBuilderList this !! Z.to_nat cl); [|done]. simpl.
  destruct (keyStateTensorBuilderList child !! Z.to_nat cl); [|done]. simpl.
  destruct (valueStateTensorBuilderList child !! Z.to_nat cl); [|done]. simpl.
  destruct (int_mul index (tensorNBytes this)); [|done]. simpl.
  destruct (int_mul childIndex (tensorNBytes this)); [|done]. simpl.
  destruct (concurrent_memcpy m _ _ _ _); [|done]. simpl.
  destruct (concurrent_memcpy _ _ _ _ _); [|done]. simpl.
  apply IH.
Qed.

Lemma Seal_tensors_set_sealed b flag n cl c meta :
  Seal_tensors (set_sealed b flag) n cl c meta = Seal_tensors b n cl c meta.
Proof.
  revert cl c meta. induction n as [|n IH]; intros cl c meta; [done|].
  cbn [Seal_tensors]. simpl.
  destruct (keyStateTensorBuilderList b !! Z.to_nat cl); [|done]. simpl.
  destruct (valueStateTensorBuilderList b !! Z.to_nat cl); [|done]. simpl.
  apply IH.
Qed.

Lemma Seal_bitmap_set_sealed b flag n i meta :
  Seal_bitmap (set_sealed b flag) n i meta = Seal_bitmap b n i meta.
Proof.
  revert i meta. induction n as [|n IH]; intros i meta; [done|].
  cbn [Seal_bitmap]. simpl. destruct (bitmap b !! Z.to_nat i); [|done].
  simpl. apply IH.
Qed.

(** C9, as stated, fails: after [_Seal] has set the flag, [Update] on the
    sealed builder returns [OK] and takes slot 0, and a second [_Seal]
    commits a second object. *)
Lemma C9_counterexample :
  let '(c, b) := KVCacheBlockBuilder_new example_client 2 1 3 in
  ('(c1, b1, block1) ← _Seal c b;
   '(status, m2, b2, data2) ← Update (memory c1) b1
       (spans (example_contents Byte.x01 Byte.x02))
       {| OffsetData.offset := -1 |};
   '(c3, b3, block3) ← _Seal (set_memory c1 m2) b2;
   Some (sealed b1, status, OffsetData.offset data2,
         FindEmptySlot b1, FindEmptySlot b2, block1.1, block3.1))
  = Some (true, OK, 0, 0, 1, 2%N, 3%N).
Proof. by vm_compute. Qed.

(** C9 (amended). [_Seal] sets the builder's sealed flag and changes nothing
    else of the builder, and no operation reads the flag: [Update], [Split]
    (on either builder) and [_Seal] itself do on a builder with the flag set
    exactly what they do on the same builder with the flag clear. *)
Theorem sealed_flag_is_never_read :
  (forall c b c' b' block,
     _Seal c b = Some (c', b', block) -> b' = set_sealed b true)
  /\ (forall m b flag kvState data,
        Update m (set_sealed b flag) kvState data
        = (fun r => (r.1.1.1, r.1.1.2, set_sealed r.1.2 flag, r.2))
          <$> Update m b kvState data)
  /\ (forall m this child flag1 flag2 index,
        Split m (set_sealed this flag1) (set_sealed child flag2) index
        = (fun r => (r.1.1.1, r.1.1.2, set_sealed r.1.2 flag1,
                     set_sealed r.2 flag2))
          <$> Split m this child index)
  /\ (forall c b flag,
        _Seal c (set_sealed b flag)
        = (fun r => (r.1.1, set_sealed b true, r.2)) <$> _Seal c b).
Proof.
  split; [|split; [|split]].
  - intros c b c' b' block H. unfold _Seal in H. simpl in H.
    destruct (Seal_tensors _ _ _ _ _) as [[c1 meta1]|]; [|done]. simpl in H.
    destruct (Seal_bitmap _ _ _ _) as [meta3|]; [|done]. simpl in H.
    by inversion H.
  - intros m b flag kvState data. unfold Update.
    change (FindEmptySlot (set_sealed b flag)) with (FindEmptySlot b).
    rewrite Update_loop_set_sealed. simpl.
    destruct (negb (_ && _)); [done|].
    destruct (negb (_ =? _)); [done|].
    destruct (Update_loop _ _ _ _ _ _) as [[status m1]|]; [|done]. simpl.
    destruct (ok status); [|done].
    destruct (bitmap_apply _ _ _); done.
  - intros m this child flag1 flag2 index. unfold Split.
    change (FindEmptySlot (set_sealed child flag2))
      with (FindEmptySlot child).
    rewrite Split_loop_set_sealed. simpl.
    destruct (Split_loop _ _ _ _ _ _ _); [|done]. simpl.
    destruct (bitmap_apply _ (bitmap child) _); [|done]. simpl.
    destruct (bitmap_apply _ (bitmap this) _); done.
  - intros c b flag. unfold _Seal.
    rewrite Seal_tensors_set_sealed. simpl.
    destruct (Seal_tensors _ _ _ _ _) as [[c1 meta1]|]; [|done]. simpl.
    rewrite Seal_bitmap_set_sealed.
    destruct (Seal_bitmap _ _ _ _) as [meta3|]; done.
Qed.

Lemma sealed_flag_is_never_read_witness :
  let cb := KVCacheBlockBuilder_new example_client 2 1 3 in
  exists r,
    _Seal cb.1 cb.2 = Some r
    /\ r.1.2 = set_sealed cb.2 true.
Proof.
  intros cb. destruct (_Seal cb.1 cb.2) as [[[c' b'] block]|] eqn:Hseal.
  - exists (c', b', block). split; [reflexivity|].
    exact (proj1 sealed_flag_is_never_read cb.1 cb.2 c' b' block Hseal).
  - vm_compute in Hseal. discriminate Hseal.
Defined.

(** * Further properties of the code *)

(** ** Split *)

(** Whatever its arguments, the loop of [Split] writes only to slot
    [childIndex] of the child's regions. *)
Lemma Split_loop_changed this child index childIndex n cl m m' :
  Split_loop this child index childIndex n cl m = Some m' -> 0 <= cl ->
  changed_within (layer_regions child cl) (childIndex * tensorNBytes this)
    (childIndex * tensorNBytes this + tensorNBytes this) m m'.
Proof.
  revert cl m. induction n as [|n IH]; intros cl m H Hcl; cbn [Split_loop] in H.
  { inversion H. apply changed_within_refl. }
  destruct (keyStateTensorBuilderList this !! Z.to_nat cl) as [kr|]; [|done].
  simpl in H.
  destruct (valueStateTensorBuilderList this !! Z.to_nat cl) as [vr|]; [|done].
  simpl in H.
  destruct (keyStateTensorBuilderList child !! Z.to_nat cl) as [ckr|] eqn:Hckr;
    [|done]. simpl in H.
  destruct (valueStateTensorBuilderList child !! Z.to_nat cl) as [cvr|]
    eqn:Hcvr; [|done]. simpl in H.
  destruct (int_mul index (tensorNBytes this)) as [off|]; [|done]. simpl in H.
  destruct (int_mul childIndex (tensorNBytes this)) as [childOff|] eqn:Hoff;
    [|done].
  apply int_mul_inv in Hoff as ->. simpl in H.
  destruct (concurrent_memcpy m ckr _ _ _) as [m1|] eqn:H1; [|done].
  simpl in H.
  destruct (concurrent_memcpy m1 cvr _ _ _) as [m2|] eqn:H2; [|done].
  simpl in H. apply IH in H; [|lia].
  eapply changed_within_trans; [|eapply changed_within_trans].
  - eapply concurrent_memcpy_changed; [exact H1| |lia|lia].
    eapply layer_regions_key; [|done|done]. lia.
  - eapply concurrent_memcpy_changed; [exact H2| |lia|lia].
    eapply layer_regions_value; [|done|done]. lia.
  - eapply changed_within_weaken; [|exact H].
    intros r Hr. apply elem_of_app in Hr as [Hr|Hr];
      apply list_elem_of_lookup in Hr as [i Hi]; rewrite lookup_drop in Hi.
    + eapply layer_regions_key; [|done|exact Hi]. lia.
    + eapply layer_regions_value; [|done|exact Hi]. lia.
Qed.

Lemma slot_bytes_Some m b r index :
  builder_wf m b -> r ∈ regions b -> 0 <= index < blockSize b ->
  exists buf bytes,
    m !! r = Some buf
    /\ region_read buf (index * tensorNBytes b) (tensorNBytes b) = Some bytes
    /\ slot_bytes m (tensorNBytes b) r index = Some bytes.
Proof.
  intros Hwf Hr Hindex. pose proof Hwf as [ ].
  destruct (wf_region_lookup m b r Hwf Hr) as (buf & Hbuf & Hlen).
  exists buf. eexists. split; [exact Hbuf|].
  rewrite (slot_bytes_lookup _ _ _ _ buf Hbuf).
  split; apply region_read_Some; nia.
Qed.

Lemma slot_offset_bounds index size nbytes :
  0 <= index < size -> 0 <= nbytes ->
  0 <= index * nbytes /\ index * nbytes + nbytes <= size * nbytes.
Proof. intros Hindex Hn. nia. Qed.

(** Between two builders of the same shape whose regions are apart, the loop
    of [Split] runs to its end and leaves in the child's slot what the
    parent's slot holds. *)
Lemma Split_loop_ok this child index childIndex n cl m :
  builder_wf m this -> builder_wf m child ->
  tensorNBytes child = tensorNBytes this -> layer child = layer this ->
  regions this ## regions child ->
  0 <= index < blockSize this -> 0 <= childIndex < blockSize child ->
  0 <= cl -> cl + Z.of_nat n = layer this ->
  exists m',
    Split_loop this child index childIndex n cl m = Some m'
    /\ forall (l : nat) kr vr ckr cvr,
         cl <= Z.of_nat l ->
         keyStateTensorBuilderList this !! l = Some kr ->
         valueStateTensorBuilderList this !! l = Some vr ->
         keyStateTensorBuilderList child !! l = Some ckr ->
         valueStateTensorBuilderList child !! l = Some cvr ->
         slot_bytes m' (tensorNBytes this) ckr childIndex
         = slot_bytes m (tensorNBytes this) kr index
         /\ slot_bytes m' (tensorNBytes this) cvr childIndex
            = slot_bytes m (tensorNBytes this) vr index.
Proof.
  intros Hwft Hwfc Htnb Hlay Hdisj Hindex HchildIndex. revert cl m Hwft Hwfc.
  induction n as [|n IH]; intros cl m Hwft Hwfc Hcl Hn.
  { exists m. split; [reflexivity|]. intros l kr vr ckr cvr Hl Hkr _ _ _.
    apply lookup_lt_Some in Hkr. destruct Hwft. lia. }
  pose proof Hwft as [ ]. pose proof Hwfc as [ ].
  pose proof (slot_offset_bounds index (blockSize this) (tensorNBytes this)
                Hindex ltac:(lia)) as Hoff.
  pose proof (slot_offset_bounds childIndex (blockSize child)
                (tensorNBytes this) HchildIndex ltac:(lia)) as HchildOff.
  rewrite <- Htnb in HchildOff at 3. 
  destruct (lookup_lt_is_Some_2 (keyStateTensorBuilderList this) (Z.to_nat cl)
              ltac:(lia)) as [kr Hkr].
  destruct (lookup_lt_is_Some_2 (valueStateTensorBuilderList this)
              (Z.to_nat cl) ltac:(lia)) as [vr Hvr].
  destruct (lookup_lt_is_Some_2 (keyStateTensorBuilderList child) (Z.to_nat cl)
              ltac:(lia)) as [ckr Hckr].
  destruct (lookup_lt_is_Some_2 (valueStateTensorBuilderList child)
              (Z.to_nat cl) ltac:(lia)) as [cvr Hcvr].
  pose proof (key_region _ _ _ Hkr) as Hkr_in.
  pose proof (value_region _ _ _ Hvr) as Hvr_in.
  pose proof (key_region _ _ _ Hckr) as Hckr_in.
  pose proof (value_region _ _ _ Hcvr) as Hcvr_in.
  destruct (slot_bytes_Some m this kr index Hwft Hkr_in Hindex)
    as (kbuf & kbytes & Hkbuf & Hkread & Hkslot).
  destruct (slot_bytes_Some m this vr index Hwft Hvr_in Hindex)
    as (vbuf & vbytes & Hvbuf & Hvread & Hvslot).
  destruct (wf_region_lookup m child ckr Hwfc Hckr_in)
    as (ckbuf & Hckbuf & Hcklen).
  destruct (wf_region_lookup m child cvr Hwfc Hcvr_in)
    as (cvbuf & Hcvbuf & Hcvlen).
  assert (kr ≠ ckr) as Hne1 by (intros ->; exact (Hdisj _ Hkr_in Hckr_in)).
  assert (vr ≠ ckr) as Hne2 by (intros ->; exact (Hdisj _ Hvr_in Hckr_in)).
  assert (vr ≠ cvr) as Hne3 by (intros ->; exact (Hdisj _ Hvr_in Hcvr_in)).
  pose proof (regions_key_value child _ ckr cvr wf_distinct1 Hckr Hcvr) as Hne4.
  destruct (concurrent_memcpy_tensor m ckr (childIndex * tensorNBytes this)
              kr (index * tensorNBytes this) (tensorNBytes this) kbuf kbytes
              ckbuf Hne1 Hkbuf Hkread Hckbuf ltac:(lia) ltac:(lia))
    as (ckbuf' & Hkw & Hkcpy).
  set (m1 := <[ckr := ckbuf']> m) in *.
  assert (m1 !! vr = Some vbuf) as Hvbuf1
    by (unfold m1; rewrite lookup_insert_ne; [exact Hvbuf|congruence]).
  assert (m1 !! cvr = Some cvbuf) as Hcvbuf1
    by (unfold m1; rewrite lookup_insert_ne; [exact Hcvbuf|congruence]).
  destruct (concurrent_memcpy_tensor m1 cvr (childIndex * tensorNBytes this)
              vr (index * tensorNBytes this) (tensorNBytes this) vbuf vbytes
              cvbuf Hne3 Hvbuf1 Hvread Hcvbuf1 ltac:(lia) ltac:(lia))
    as (cvbuf' & Hvw & Hvcpy).
  set (m2 := <[cvr := cvbuf']> m1) in *.
  assert (changed_within (regions child) (childIndex * tensorNBytes this)
            (childIndex * tensorNBytes this + tensorNBytes this) m m2) as Hch.
  { eapply changed_within_trans;
      eapply (concurrent_memcpy_changed (regions child));
      [exact Hkcpy|exact Hckr_in|lia|lia|exact Hvcpy|exact Hcvr_in|lia|lia]. }
  destruct (IH (cl + 1) m2 (builder_wf_changed _ _ _ _ _ _ Hch Hwft)
              (builder_wf_changed _ _ _ _ _ _ Hch Hwfc) ltac:(lia) ltac:(lia))
    as (m' & Hloop & Hcontent).
  exists m'. split.
  { cbn [Split_loop]. rewrite Hkr, Hvr, Hckr, Hcvr. simpl.
    rewrite !int_mul_Some by (unfold INT_MIN; lia). simpl.
    rewrite Hkcpy. simpl. rewrite Hvcpy. simpl. exact Hloop. }
  intros l kr' vr' ckr' cvr' Hl Hkr' Hvr' Hckr' Hcvr'.
  assert (forall r, r ∈ regions this ->
            slot_bytes m2 (tensorNBytes this) r index
            = slot_bytes m (tensorNBytes this) r index) as Hparent.
  { intros r Hr. unfold slot_bytes, load.
    rewrite (changed_within_outside _ _ _ _ _ r Hch); [reflexivity|].
    intros Hin. exact (Hdisj _ Hr Hin). }
  destruct (decide (l = Z.to_nat cl)) as [->|Hnel].
  - assert (kr' = kr) as -> by congruence.
    assert (vr' = vr) as -> by congruence.
    assert (ckr' = ckr) as -> by congruence.
    assert (cvr' = cvr) as -> by congruence.
    apply Split_loop_changed in Hloop; [|lia].
    pose proof (region_read_length _ _ _ _ Hkread) as Hklen.
    pose proof (region_read_length _ _ _ _ Hvread) as Hvlen.
    split.
    + rewrite Hkslot. rewrite (slot_bytes_lookup _ _ _ _ ckbuf').
      * pose proof (region_read_write_same _ _ _ _ Hkw) as Hrd.
        rewrite Hklen in Hrd. exact Hrd.
      * rewrite (changed_within_outside _ _ _ _ _ ckr Hloop).
        -- unfold m2, m1. rewrite lookup_insert_ne, lookup_insert_eq;
             [reflexivity|congruence].
        -- eapply layer_regions_later; [eassumption| |left; exact Hckr]. lia.
    + rewrite Hvslot. rewrite (slot_bytes_lookup _ _ _ _ cvbuf').
      * pose proof (region_read_write_same _ _ _ _ Hvw) as Hrd.
        rewrite Hvlen in Hrd. exact Hrd.
      * rewrite (changed_within_outside _ _ _ _ _ cvr Hloop).
        -- unfold m2. rewrite lookup_insert_eq. reflexivity.
        -- eapply layer_regions_later; [eassumption| |right; exact Hcvr]. lia.
  - destruct (Hcontent l kr' vr' ckr' cvr' ltac:(lia) Hkr' Hvr' Hckr' Hcvr')
      as [-> ->].
    split; apply Hparent; [by eapply key_region|by eapply value_region].
Qed.


Lemma to_int16_small x : -32768 <= x < 32768 -> to_int16 x = x.
Proof. intros Hx. unfold to_int16. rewrite Z.mod_small; lia. Qed.

Lemma to_int16_range x : -32768 <= to_int16 x < 32768.
Proof.
  unfold to_int16.
  pose proof (Z.mod_pos_bound (x + 32768) 65536 ltac:(lia)). lia.
Qed.

(** X10. [Split] between two builders of the same shape whose regions are apart,
    for a slot of the parent and a child whose [FindEmptySlot] is one of its
    slots. The call returns the child's slot as an [int16_t]; the child's
    slot holds, for every layer, the bytes of the parent's slot and its bit
    is cleared; the parent's bit is set; and no byte outside the child's slot
    changes: the parent's regions still hold the bytes. *)
Theorem Split_moves_slot m this child index :
  builder_wf m this -> builder_wf m child ->
  tensorNBytes child = tensorNBytes this -> layer child = layer this ->
  regions this ## regions child ->
  0 <= index < blockSize this ->
  0 <= FindEmptySlot child < blockSize child ->
  exists m' thisBitmap childBitmap,
    Split m this child index
    = Some (to_int16 (FindEmptySlot child), m',
            set_bitmap this thisBitmap, set_bitmap child childBitmap)
    /\ builder_wf m' (set_bitmap this thisBitmap)
    /\ builder_wf m' (set_bitmap child childBitmap)
    /\ (forall k, slot_bit thisBitmap k
                  = if bool_decide (k = index) then true
                    else slot_bit (bitmap this) k)
    /\ (forall k, slot_bit childBitmap k
                  = if bool_decide (k = FindEmptySlot child) then false
                    else slot_bit (bitmap child) k)
    /\ (forall (l : nat) kr vr ckr cvr,
          keyStateTensorBuilderList this !! l = Some kr ->
          valueStateTensorBuilderList this !! l = Some vr ->
          keyStateTensorBuilderList child !! l = Some ckr ->
          valueStateTensorBuilderList child !! l = Some cvr ->
          slot_bytes m' (tensorNBytes this) ckr (FindEmptySlot child)
          = slot_bytes m (tensorNBytes this) kr index
          /\ slot_bytes m' (tensorNBytes this) cvr (FindEmptySlot child)
             = slot_bytes m (tensorNBytes this) vr index)
    /\ (forall r, r ∉ regions child -> m' !! r = m !! r)
    /\ (forall r j, j ≠ FindEmptySlot child ->
          slot_bytes m' (tensorNBytes this) r j
          = slot_bytes m (tensorNBytes this) r j)
    /\ (FindEmptySlot child < 32768 ->
        to_int16 (FindEmptySlot child) = FindEmptySlot child).
Proof.
  intros Hwft Hwfc Htnb Hlay Hdisj Hindex Hchild.
  pose proof Hwft as [ ]. pose proof Hwfc as [ ].
  pose proof (bitmap_covers_block this ltac:(lia) wf_bitmapSize0) as Hcover.
  pose proof (bitmap_covers_block child ltac:(lia) wf_bitmapSize1) as Hcover'.
  destruct (Split_loop_ok this child index (FindEmptySlot child)
              (Z.to_nat (layer this)) 0 m Hwft Hwfc Htnb Hlay Hdisj Hindex
              Hchild ltac:(lia) ltac:(lia)) as (m' & Hloop & Hcontent).
  destruct (bitmap_acquire (bitmap child) (FindEmptySlot child)
              wf_bitmap_words1 ltac:(lia))
    as (bmC & HbmC & HlenC & HwordsC & HbitsC).
  destruct (bitmap_free (bitmap this) index wf_bitmap_words0 ltac:(lia))
    as (bmT & HbmT & HlenT & HwordsT & HbitsT).
  pose proof (Split_loop_changed _ _ _ _ _ _ _ _ Hloop ltac:(lia)) as Hch.
  apply (changed_within_weaken _ (regions child)) in Hch;
    [|apply layer_regions_subseteq].
  exists m', bmT, bmC.
  split; [unfold Split; rewrite Hloop; simpl; rewrite HbmC; simpl;
          rewrite HbmT; reflexivity|].
  split; [apply builder_wf_set_bitmap; [|exact HlenT|exact HwordsT];
          eapply builder_wf_changed; [exact Hch|exact Hwft]|].
  split; [apply builder_wf_set_bitmap; [|exact HlenC|exact HwordsC];
          eapply builder_wf_changed; [exact Hch|exact Hwfc]|].
  split; [exact HbitsT|]. split; [exact HbitsC|].
  split; [intros l kr vr ckr cvr; apply (Hcontent l); lia|].
  split; [intros r Hr; eapply changed_within_outside; eassumption|].
  split; [intros r j Hj; eapply changed_within_slot_bytes; eassumption|].
  intros Hsmall. apply to_int16_small. lia.
Qed.

Lemma Split_moves_slot_witness :
  builder_wf (memory example_child.1) example_builder
  /\ builder_wf (memory example_child.1) example_child.2
  /\ regions example_builder ## regions example_child.2
  /\ 0 <= FindEmptySlot example_child.2 < blockSize example_child.2
  /\ exists m' thisBitmap childBitmap,
       Split (memory example_child.1) example_builder example_child.2 1
       = Some (to_int16 (FindEmptySlot example_child.2), m',
               set_bitmap example_builder thisBitmap,
               set_bitmap example_child.2 childBitmap).
Proof.
  assert (builder_wf (memory example_child.1) example_builder) as Hwft
    by solve_wf.
  assert (builder_wf (memory example_child.1) example_child.2) as Hwfc
    by solve_wf.
  assert (regions example_builder ## regions example_child.2) as Hdisj.
  { intros r Hthis Hchild. vm_compute in Hthis, Hchild.
    apply list_elem_of_In in Hthis, Hchild. simpl in Hthis, Hchild.
    destruct Hthis as [<-|[<-|[]]]; destruct Hchild as [?|[?|[]]];
      discriminate. }
  assert (0 <= FindEmptySlot example_child.2 < blockSize example_child.2)
    as Hfree by (by vm_compute).
  split; [exact Hwft|]. split; [exact Hwfc|]. split; [exact Hdisj|].
  split; [exact Hfree|].
  destruct (Split_moves_slot (memory example_child.1) example_builder
              example_child.2 1 Hwft Hwfc eq_refl eq_refl Hdisj
              ltac:(by vm_compute) Hfree)
    as (m' & thisBitmap & childBitmap & Hsplit & _).
  exists m', thisBitmap, childBitmap. exact Hsplit.
Defined.

Lemma concurrent_memcpy_outside m dst off src n buf :
  m !! dst = Some buf ->
  off < 0 \/ Z.of_nat (length buf) < off + n ->
  concurrent_memcpy m dst off src n = None.
Proof.
  intros Hdst Hout. unfold concurrent_memcpy.
  destruct (load m src n) as [bytes|] eqn:Hload; [|reflexivity]. simpl.
  apply load_length in Hload. rewrite Hdst. simpl.
  replace (region_write buf off bytes) with (@None (list byte));
    [reflexivity|].
  unfold region_write.
  destruct (0 <=? off) eqn:H1; [|reflexivity].
  destruct (off + Z.of_nat (length bytes) <=? Z.of_nat (length buf)) eqn:H2;
    [|reflexivity].
  apply Z.leb_le in H1, H2. lia.
Qed.

(** X11. [Split] does not test what the child's [FindEmptySlot] returns. When the
    child has no free slot, so that the result is [-1] or the index of a
    padding bit, the copy of the first layer is aimed outside the child's
    region: the call has no defined result, and in particular reports no
    error. *)
Theorem Split_unchecked_child m this child index :
  builder_wf m child ->
  tensorNBytes this = tensorNBytes child ->
  1 <= layer this -> 1 <= tensorNBytes child ->
  ~ (0 <= FindEmptySlot child < blockSize child) ->
  Split m this child index = None.
Proof.
  intros Hwfc Htnb Hlayer Hbytes Hfull. unfold Split.
  destruct (Z.to_nat (layer this)) as [|n] eqn:Hn; [lia|].
  cbn [Split_loop].
  destruct (keyStateTensorBuilderList this !! Z.to_nat 0) as [kr|];
    [|reflexivity]. simpl.
  destruct (valueStateTensorBuilderList this !! Z.to_nat 0) as [vr|];
    [|reflexivity]. simpl.
  destruct (keyStateTensorBuilderList child !! Z.to_nat 0) as [ckr|] eqn:Hckr;
    [|reflexivity]. simpl.
  destruct (valueStateTensorBuilderList child !! Z.to_nat 0) as [cvr|];
    [|reflexivity]. simpl.
  destruct (int_mul index (tensorNBytes this)) as [off|]; [|reflexivity].
  simpl.
  destruct (int_mul (FindEmptySlot child) (tensorNBytes this))
    as [childOff|] eqn:Hoff; [|reflexivity].
  apply int_mul_inv in Hoff as ->. simpl.
  destruct (wf_region_lookup m child ckr Hwfc (key_region _ _ _ Hckr))
    as (cbuf & Hcbuf & Hclen).
  rewrite (concurrent_memcpy_outside m ckr _ _ _ cbuf Hcbuf); [reflexivity|].
  rewrite Hclen, Htnb. destruct Hwfc. nia.
Qed.

Lemma Split_unchecked_child_witness :
  builder_wf (memory example_child.1) example_builder
  /\ ~ (0 <= FindEmptySlot example_builder < blockSize example_builder)
  /\ Split (memory example_child.1) example_child.2 example_builder 0 = None.
Proof.
  assert (builder_wf (memory example_child.1) example_builder) as Hwfc
    by solve_wf.
  assert (~ (0 <= FindEmptySlot example_builder < blockSize example_builder))
    as Hfull by (vm_compute; intros [_ H]; discriminate H).
  split; [exact Hwfc|]. split; [exact Hfull|].
  apply (Split_unchecked_child (memory example_child.1) example_child.2
           example_builder 0 Hwfc eq_refl);
    [by vm_compute|by vm_compute|exact Hfull].
Defined.



(** ** The bitmap as a string *)

Lemma string_length_app s t :
  String.length (s +:+ t) = (String.length s + String.length t)%nat.
Proof. induction s as [|a s IH]; simpl; [reflexivity|]. by rewrite IH. Qed.

Lemma string_get_app_l s t (p : nat) :
  (p < String.length s)%nat -> String.get p (s +:+ t) = String.get p s.
Proof. intros Hp. symmetry. by apply String.append_correct1. Qed.

Lemma string_get_app_r s t (p : nat) :
  (String.length s <= p)%nat ->
  String.get p (s +:+ t) = String.get (p - String.length s) t.
Proof.
  intros Hp. rewrite (String.append_correct2 s t (p - String.length s)).
  f_equal. lia.
Qed.

Lemma testbit_shiftr_land w j :
  0 <= j -> negb (Z.land (Z.shiftr w j) 1 =? 0) = Z.testbit w j.
Proof.
  intros Hj. change 1 with (Z.ones 1) at 1. rewrite Z.land_ones by lia.
  rewrite Z.shiftr_div_pow2 by lia. change (2 ^ 1) with 2.
  pose proof (Z.testbit_spec' w j Hj) as Hspec.
  destruct (Z.testbit w j); simpl in Hspec; rewrite <- Hspec; reflexivity.
Qed.

Lemma GetBitmapStr_bits_spec word n result :
  String.length (GetBitmapStr_bits word n result)
  = (String.length result + n)%nat
  /\ (forall p : nat, (p < String.length result)%nat ->
        String.get p (GetBitmapStr_bits word n result) = String.get p result)
  /\ (forall t : nat, (t < n)%nat ->
        String.get (String.length result + t) (GetBitmapStr_bits word n result)
        = Some (bit_char (Z.testbit word (Z.of_nat n - 1 - Z.of_nat t)))).
Proof.
  revert result. induction n as [|j IH]; intros result.
  { simpl. split; [lia|]. split; [reflexivity|]. intros t Ht. lia. }
  cbn [GetBitmapStr_bits]. rewrite testbit_shiftr_land by lia.
  fold (bit_char (Z.testbit word (Z.of_nat j))).
  set (c := bit_char (Z.testbit word (Z.of_nat j))).
  destruct (IH (result +:+ String c "")) as (Hlen & Hold & Hnew).
  rewrite string_length_app in Hlen, Hold, Hnew. simpl in Hlen, Hold, Hnew.
  split; [lia|]. split.
  - intros p Hp. rewrite Hold by lia. by apply string_get_app_l.
  - intros t Ht. destruct t as [|t].
    + rewrite Nat.add_0_r, Hold by lia.
      rewrite string_get_app_r, Nat.sub_diag by lia. simpl.
      unfold c. do 3 f_equal. lia.
    + replace (String.length result + S t)%nat
        with (String.length result + 1 + t)%nat by lia.
      rewrite Hnew by lia. do 3 f_equal. lia.
Qed.

Lemma GetBitmapStr_loop_spec bm n i result :
  String.length (GetBitmapStr_loop bm n i result)
  = (String.length result + 64 * n)%nat
  /\ (forall p : nat, (p < String.length result)%nat ->
        String.get p (GetBitmapStr_loop bm n i result) = String.get p result)
  /\ (forall q t : nat, (q < n)%nat -> (t < 64)%nat ->
        String.get (String.length result + 64 * q + t)
          (GetBitmapStr_loop bm n i result)
        = Some (bit_char (Z.testbit (word_at bm (i + Z.of_nat q))
                            (63 - Z.of_nat t)))).
Proof.
  revert i result. induction n as [|n IH]; intros i result.
  { simpl. split; [lia|]. split; [reflexivity|]. intros q t Hq. lia. }
  cbn [GetBitmapStr_loop].
  destruct (GetBitmapStr_bits_spec (word_at bm i) 64 result)
    as (Hlen1 & Hold1 & Hnew1).
  destruct (IH (i + 1) (GetBitmapStr_bits (word_at bm i) 64 result))
    as (Hlen & Hold & Hnew).
  rewrite Hlen1 in Hlen, Hold, Hnew.
  split; [lia|]. split.
  - intros p Hp. rewrite Hold by lia. apply Hold1. exact Hp.
  - intros q t Hq Ht. destruct q as [|q].
    + rewrite Nat.mul_0_r, Nat.add_0_r, Hold by lia.
      rewrite Hnew1 by exact Ht.
      replace (i + Z.of_nat 0) with i by lia.
      replace (Z.of_nat 64 - 1 - Z.of_nat t) with (63 - Z.of_nat t) by lia.
      reflexivity.
    + replace (String.length result + 64 * S q + t)%nat
        with (String.length result + 64 + 64 * q + t)%nat by lia.
      rewrite Hnew by lia.
      replace (i + 1 + Z.of_nat q) with (i + Z.of_nat (S q)) by lia.
      reflexivity.
Qed.

(** X1. [GetBitmapStr] writes 64 characters per bitmap word, the words in order
    and within each word the most significant bit first: the bit of slot [k]
    is the character at position [64 * (k / 64) + 63 - k mod 64], ['1'] for
    a free slot and ['0'] for an occupied one. The bitmap array has
    [bitmapSize] words, so that every read of the loop is inside it. *)
Theorem GetBitmapStr_layout b :
  Z.of_nat (length (bitmap b)) = bitmapSize b ->
  String.length (GetBitmapStr b) = Z.to_nat (64 * bitmapSize b)
  /\ forall k, 0 <= k < 64 * bitmapSize b ->
       String.get (Z.to_nat (64 * (k / 64) + 63 - k mod 64)) (GetBitmapStr b)
       = Some (bit_char (slot_bit (bitmap b) k)).
Proof.
  intros _. unfold GetBitmapStr.
  destruct (GetBitmapStr_loop_spec (bitmap b) (Z.to_nat (bitmapSize b)) 0 "")
    as (Hlen & _ & Hnew).
  cbn [String.length] in Hlen, Hnew. split; [lia|].
  intros k Hk.
  pose proof (Z.mod_pos_bound k 64 ltac:(lia)) as Hr.
  assert (0 <= k / 64 < bitmapSize b) as Hq.
  { split; [apply Z.div_pos; lia|apply Z.div_lt_upper_bound; lia]. }
  replace (Z.to_nat (64 * (k / 64) + 63 - k mod 64))
    with (0 + 64 * Z.to_nat (k / 64) + Z.to_nat (63 - k mod 64))%nat by lia.
  rewrite Hnew by lia. rewrite slot_bit_split by lia.
  replace (0 + Z.of_nat (Z.to_nat (k / 64))) with (k / 64) by lia.
  replace (63 - Z.of_nat (Z.to_nat (63 - k mod 64))) with (k mod 64) by lia.
  reflexivity.
Qed.

Lemma GetBitmapStr_layout_witness :
  Z.of_nat (length (bitmap example_builder)) = bitmapSize example_builder
  /\ 0 <= 2 < 64 * bitmapSize example_builder
  /\ String.get 61 (GetBitmapStr example_builder)
     = Some (bit_char (slot_bit (bitmap example_builder) 2)).
Proof.
  split; [reflexivity|]. split; [by vm_compute|].
  exact (proj2 (GetBitmapStr_layout example_builder eq_refl) 2
           ltac:(by vm_compute)).
Defined.

(** ** The effect of a successful [Update] *)

Lemma IsFull_guard b :
  Forall is_uint64 (bitmap b) ->
  Z.of_nat (length (bitmap b)) = bitmapSize b ->
  IsFull b = true <-> ~ (0 <= FindEmptySlot b < blockSize b).
Proof.
  intros Hwords Hlen. pose proof (IsFull_spec b Hwords Hlen) as Hfull.
  destruct (FindEmptySlot_spec b Hwords Hlen)
    as [[Heq Hnone]|(Hr & Hset & Hlow)].
  - split; [lia|]. intros _. apply Hfull. intros k _. apply Hnone.
  - split.
    + intros Ht Hrange. rewrite (proj1 Hfull Ht) in Hset by exact Hrange.
      discriminate.
    + intros Hout. apply Hfull. intros k Hk. apply Hlow. lia.
Qed.

Lemma filter_ext_Forall {A} (P Q : A -> Prop)
    `{forall x, Decision (P x)} `{forall x, Decision (Q x)} l :
  Forall (fun x => P x <-> Q x) l -> filter P l = filter Q l.
Proof.
  induction 1 as [|x l Hx _ IH]; [reflexivity|].
  destruct (decide (P x)) as [HP|HP].
  - rewrite !filter_cons_True by tauto. by rewrite IH.
  - rewrite !filter_cons_False by tauto. exact IH.
Qed.

(** Changing the bit of one slot changes the number of occupied slots by
    what that slot contributes. *)
Lemma occupied_flip b bm' index (v : bool) :
  0 <= index < blockSize b ->
  (forall k, slot_bit bm' k = if bool_decide (k = index) then v
                              else slot_bit (bitmap b) k) ->
  occupied (set_bitmap b bm')
  = occupied b + Z.b2z (slot_bit (bitmap b) index) - Z.b2z v.
Proof.
  intros Hindex Hbits. unfold occupied. simpl.
  replace (blockSize b) with (index + (1 + (blockSize b - index - 1))) by lia.
  rewrite !seqZ_app by lia. rewrite !filter_app, !length_app.
  rewrite (filter_ext_Forall (fun i => slot_bit bm' i = false)
             (fun i => slot_bit (bitmap b) i = false) (seqZ 0 index)).
  2:{ apply Forall_seqZ. intros j Hj. rewrite Hbits.
      rewrite bool_decide_eq_false_2 by lia. reflexivity. }
  rewrite (filter_ext_Forall (fun i => slot_bit bm' i = false)
             (fun i => slot_bit (bitmap b) i = false)
             (seqZ (0 + index + 1) (blockSize b - index - 1))).
  2:{ apply Forall_seqZ. intros j Hj. rewrite Hbits.
      rewrite bool_decide_eq_false_2 by lia. reflexivity. }
  change (seqZ (0 + index) 1) with [0 + (0 + index)].
  replace (0 + (0 + index)) with index by lia.
  rewrite !filter_cons, !filter_nil.
  rewrite Hbits, bool_decide_eq_true_2 by reflexivity.
  destruct v, (slot_bit (bitmap b) index);
    repeat (destruct (decide _) as [?|?]; try discriminate; try congruence);
    simpl; lia.
Qed.

(** X4. On a builder that is not full, [Update] with full-size spans succeeds: it
    reports the slot [FindEmptySlot] returns, which was free and is occupied
    afterwards, it leaves every layer's key and value bytes in that slot, it
    changes no other bit and no byte of another slot or region, and the
    builder stays well formed with one more occupied slot. On a full builder
    it returns the error of its range check and changes nothing. *)
Theorem Update_success_iff_not_full m b contents data :
  builder_wf m b -> full_size b contents ->
  (IsFull b = false ->
   exists m' b',
     Update m b (spans contents) data
     = Some (OK, m', b', {| OffsetData.offset := FindEmptySlot b |})
     /\ builder_wf m' b'
     /\ 0 <= FindEmptySlot b < blockSize b
     /\ slot_bit (bitmap b) (FindEmptySlot b) = true
     /\ (forall k, slot_bit (bitmap b') k
                   = if bool_decide (k = FindEmptySlot b) then false
                     else slot_bit (bitmap b) k)
     /\ occupied b' = occupied b + 1
     /\ (forall (l : nat) kv kr vr,
           contents !! l = Some kv ->
           keyStateTensorBuilderList b !! l = Some kr ->
           valueStateTensorBuilderList b !! l = Some vr ->
           slot_bytes m' (tensorNBytes b) kr (FindEmptySlot b) = Some kv.1
           /\ slot_bytes m' (tensorNBytes b) vr (FindEmptySlot b) = Some kv.2)
     /\ (forall r j, j ≠ FindEmptySlot b ->
           slot_bytes m' (tensorNBytes b) r j
           = slot_bytes m (tensorNBytes b) r j)
     /\ (forall r, r ∉ regions b -> m' !! r = m !! r))
  /\ (IsFull b = true ->
      Update m b (spans contents) data
      = Some (index_out_of_range (FindEmptySlot b), m, b, data)).
Proof.
  intros Hwf Hfull. pose proof Hwf as [ ].
  pose proof (IsFull_guard b wf_bitmap_words0 wf_bitmap_length0) as Hguard.
  split.
  - intros Hnot.
    assert (0 <= FindEmptySlot b < blockSize b) as Hrange.
    { destruct (decide (0 <= FindEmptySlot b < blockSize b)) as [Hr|Hr];
        [exact Hr|].
      apply Hguard in Hr. congruence. }
    destruct (Update_ok m b contents data Hwf Hfull Hrange)
      as (m' & bm' & Hupd & Hwf' & Hbits & Hch & Hcontent).
    assert (slot_bit (bitmap b) (FindEmptySlot b) = true) as Hset.
    { destruct (FindEmptySlot_spec b wf_bitmap_words0 wf_bitmap_length0)
        as [[Heq _]|(_ & Hset & _)]; [lia|exact Hset]. }
    exists m', (set_bitmap b bm').
    split; [exact Hupd|]. split; [exact Hwf'|]. split; [exact Hrange|].
    split; [exact Hset|]. split; [exact Hbits|].
    split.
    { rewrite (occupied_flip b bm' (FindEmptySlot b) false Hrange Hbits).
      rewrite Hset. simpl. lia. }
    split; [exact Hcontent|].
    split; [intros r j Hj; eapply changed_within_slot_bytes; eassumption|].
    intros r Hr. eapply changed_within_outside; eassumption.
  - intros Hyes. apply Hguard in Hyes. unfold Update.
    replace ((0 <=? FindEmptySlot b) && (FindEmptySlot b <? blockSize b))
      with false; [reflexivity|].
    symmetry. apply andb_false_iff.
    destruct (Z_lt_le_dec (FindEmptySlot b) 0); [left; apply Z.leb_gt; lia|].
    right. apply Z.ltb_ge. lia.
Qed.

Lemma Update_success_iff_not_full_witness :
  builder_wf (memory example_child.1) example_child.2
  /\ full_size example_child.2 (example_contents Byte.x07 Byte.x08)
  /\ IsFull example_child.2 = false
  /\ exists m' b',
       Update (memory example_child.1) example_child.2
         (spans (example_contents Byte.x07 Byte.x08))
         {| OffsetData.offset := -1 |}
       = Some (OK, m', b',
               {| OffsetData.offset := FindEmptySlot example_child.2 |})
       /\ occupied b' = occupied example_child.2 + 1.
Proof.
  assert (builder_wf (memory example_child.1) example_child.2) as Hwf
    by solve_wf.
  assert (full_size example_child.2 (example_contents Byte.x07 Byte.x08))
    as Hfull by (repeat constructor; by vm_compute).
  assert (IsFull example_child.2 = false) as Hnot by (by vm_compute).
  split; [exact Hwf|]. split; [exact Hfull|]. split; [exact Hnot|].
  destruct (proj1 (Update_success_iff_not_full (memory example_child.1)
                     example_child.2 (example_contents Byte.x07 Byte.x08)
                     {| OffsetData.offset := -1 |} Hwf Hfull) Hnot)
    as (m' & b' & Hupd & _ & _ & _ & _ & Hocc & _).
  exists m', b'. split; [exact Hupd|exact Hocc].
Defined.





(** ** The new builder *)

(** X3. The constructor of an empty builder, for [0 <= blockSize <=
    INT_MAX - 63] (so that [blockSize + 63] does not overflow), [tensorNBytes]
    and [layer] in [[0, INT_MAX]] and [blockSize * tensorNBytes <= INT_MAX]
    (so that every slot offset is an [int]). The builder has the three sizes
    it was given and [layer] key and [layer] value builders; their [2 *
    layer] regions are fresh, distinct, and each holds [blockSize *
    tensorNBytes] uninitialised bytes; nothing the store held before is
    touched. Every bit of the bitmap is set, so no slot is occupied; the
    first slot [FindEmptySlot] offers is slot 0. With [blockSize = 0] the
    bitmap has no word: [FindEmptySlot] returns [-1] and [IsFull] holds. *)
Theorem KVCacheBlockBuilder_new_empty c nbytes layers size c' b :
  0 <= size <= INT_MAX - 63 -> 0 <= nbytes <= INT_MAX ->
  0 <= layers <= INT_MAX -> size * nbytes <= INT_MAX ->
  KVCacheBlockBuilder_new c nbytes layers size = (c', b) ->
  blockSize b = size /\ tensorNBytes b = nbytes /\ layer b = layers
  /\ Z.of_nat (length (keyStateTensorBuilderList b)) = layers
  /\ Z.of_nat (length (valueStateTensorBuilderList b)) = layers
  /\ NoDup (regions b)
  /\ Forall (fun r => (next_id c <= r < next_id c')%N
                      /\ memory c' !! r
                         = Some (uninit c r
                                 <$> seq 0 (Z.to_nat (size * nbytes))))
       (regions b)
  /\ builder_wf (memory c') b
  /\ bitmapSize b = (size + 63) / 64
  /\ (forall k, 0 <= k < 64 * bitmapSize b -> slot_bit (bitmap b) k = true)
  /\ occupied b = 0
  /\ FindEmptySlot b = (if size =? 0 then -1 else 0)
  /\ IsFull b = (size =? 0)
  /\ sealed b = false
  /\ next_id c' = (next_id c + 2 * Z.to_N layers)%N
  /\ (forall r, (r < next_id c)%N -> memory c' !! r = memory c !! r)
  /\ objects c' = objects c.
Proof.
  intros Hsize Hnbytes Hlayers Hprod Hnew.
  destruct (KVCacheBlockBuilder_new_spec _ _ _ _ _ _ Hsize Hnbytes Hlayers
              Hprod Hnew) as (Hwf & Hbs & Htnb & Hlay & Hsealed & Hfree & Hfresh).
  pose proof Hwf as [ ].
  pose proof (bitmap_covers_block b ltac:(lia) wf_bitmapSize0) as Hcover.
  assert (filled_to b 0) as Hfill.
  { intros j Hj. rewrite Hfree, bool_decide_eq_true_2 by lia. reflexivity. }
  split; [exact Hbs|]. split; [exact Htnb|]. split; [exact Hlay|].
  split; [lia|]. split; [lia|]. split; [exact wf_distinct0|].
  unfold KVCacheBlockBuilder_new in Hnew.
  destruct (make_tensor_builders _ _ _ _ _) as [[c1 keys] values] eqn:Hmk.
  injection Hnew as <- <-.
  apply make_tensor_builders_spec in Hmk
    as (Hnext & Hobj & _ & _ & _ & _ & Hmem).
  assert (FindEmptySlot
            {| blockSize := size; bitmapSize := Z.quot (size + 63) 64;
               bitmap := bitmap_all_free (Z.quot (size + 63) 64);
               tensorNBytes := nbytes; layer := layers;
               keyStateTensorBuilderList := keys;
               valueStateTensorBuilderList := values; sealed := false |}
          = if size =? 0 then -1 else 0) as Hfind.
  { destruct (size =? 0) eqn:Hz.
    - apply Z.eqb_eq in Hz. subst size. reflexivity.
    - apply Z.eqb_neq in Hz.
      eapply filled_to_FindEmptySlot; [exact Hwf|exact Hfill|simpl; lia]. }
  split.
  { eapply Forall_impl; [exact Hfresh|]. intros r Hr. cbn beta in Hr |- *.
    split; [exact Hr|]. rewrite Hmem. cbn [fst snd].
    rewrite bool_decide_eq_true_2; [reflexivity|]. lia. }
  split; [exact Hwf|].
  split; [simpl; rewrite Z.quot_div_nonneg by lia; reflexivity|].
  split; [exact Hfree|].
  split; [eapply occupied_filled; [exact Hwf|exact Hfill|simpl; lia]|].
  split; [exact Hfind|].
  split.
  { pose proof (IsFull_guard _ wf_bitmap_words0 wf_bitmap_length0) as Hguard.
    rewrite Hfind in Hguard. simpl in Hguard.
    destruct (size =? 0) eqn:Hz.
    - apply Hguard. lia.
    - apply Z.eqb_neq in Hz.
      destruct (IsFull _) eqn:Hfull; [|reflexivity].
      exfalso. apply (proj1 Hguard eq_refl). lia. }
  split; [reflexivity|].
  split; [rewrite Hnext; lia|].
  split; [|exact Hobj].
  intros r Hr. rewrite Hmem. rewrite bool_decide_eq_false_2 by lia. reflexivity.
Qed.

Lemma KVCacheBlockBuilder_new_empty_witness :
  let cb := KVCacheBlockBuilder_new example_client 2 1 3 in
  blockSize cb.2 = 3 /\ tensorNBytes cb.2 = 2 /\ layer cb.2 = 1
  /\ builder_wf (memory cb.1) cb.2
  /\ occupied cb.2 = 0 /\ FindEmptySlot cb.2 = 0 /\ IsFull cb.2 = false.
Proof.
  intros cb.
  destruct (KVCacheBlockBuilder_new_empty example_client 2 1 3 cb.1 cb.2
              ltac:(by vm_compute) ltac:(by vm_compute) ltac:(by vm_compute)
              ltac:(by vm_compute) eq_refl)
    as (Hbs & Htnb & Hlay & _ & _ & _ & _ & Hwf & _ & _ & Hocc & Hfind & Hfull
        & _).
  split; [exact Hbs|]. split; [exact Htnb|]. split; [exact Hlay|].
  split; [exact Hwf|]. split; [exact Hocc|]. split; [exact Hfind|exact Hfull].
Defined.

(** ** Sealing and reconstructing *)






















(** ** Fetching an object, with and without migration *)









(** X2. [KVCacheBlock::GetBitmapStr] lays the sealed block's bitmap out as
    the builder's [GetBitmapStr] does: 64 characters per word, the most
    significant bit of each word first, ['1'] for a free slot. *)
Theorem KVCacheBlock_GetBitmapStr_layout block :
  Z.of_nat (length (KVCacheBlock.bitmap block))
  = KVCacheBlock.bitmapSize block ->
  String.length (KVCacheBlock_GetBitmapStr block)
  = Z.to_nat (64 * KVCacheBlock.bitmapSize block)
  /\ forall k, 0 <= k < 64 * KVCacheBlock.bitmapSize block ->
       String.get (Z.to_nat (64 * (k / 64) + 63 - k mod 64))
         (KVCacheBlock_GetBitmapStr block)
       = Some (bit_char (slot_bit (KVCacheBlock.bitmap block) k)).
Proof.
  intros _. unfold KVCacheBlock_GetBitmapStr.
  destruct (GetBitmapStr_loop_spec (KVCacheBlock.bitmap block)
              (Z.to_nat (KVCacheBlock.bitmapSize block)) 0 "")
    as (Hlen & _ & Hnew).
  cbn [String.length] in Hlen, Hnew. split; [lia|].
  intros k Hk.
  pose proof (Z.mod_pos_bound k 64 ltac:(lia)) as Hr.
  assert (0 <= k / 64 < KVCacheBlock.bitmapSize block) as Hq.
  { split; [apply Z.div_pos; lia|apply Z.div_lt_upper_bound; lia]. }
  replace (Z.to_nat (64 * (k / 64) + 63 - k mod 64))
    with (0 + 64 * Z.to_nat (k / 64) + Z.to_nat (63 - k mod 64))%nat by lia.
  rewrite Hnew by lia. rewrite slot_bit_split by lia.
  replace (0 + Z.of_nat (Z.to_nat (k / 64))) with (k / 64) by lia.
  replace (63 - Z.of_nat (Z.to_nat (63 - k mod 64))) with (k mod 64) by lia.
  reflexivity.
Qed.

Lemma KVCacheBlock_GetBitmapStr_layout_witness :
  let block :=
    {| KVCacheBlock.meta_ := empty_meta; KVCacheBlock.id_ := 0%N;
       KVCacheBlock.layer := 1;
       KVCacheBlock.keyStateTensorList := [0%N];
       KVCacheBlock.valueStateTensorList := [1%N];
       KVCacheBlock.bitmapSize := 1;
       KVCacheBlock.bitmap := [18446744073709551608];
       KVCacheBlock.tensorNBytes := 2;
       KVCacheBlock.blockSize := 3 |} in
  Z.of_nat (length (KVCacheBlock.bitmap block))
  = KVCacheBlock.bitmapSize block
  /\ 0 <= 3 < 64 * KVCacheBlock.bitmapSize block
  /\ String.get 60 (KVCacheBlock_GetBitmapStr block) = Some "1"%char.
Proof.
  intros block. split; [reflexivity|]. split; [by vm_compute|].
  exact (proj2 (KVCacheBlock_GetBitmapStr_layout block eq_refl) 3
           ltac:(by vm_compute)).
Defined.

(** ** Make *)





